(** * pleasure-utils: the configuration resolution engine

    A shallow embedding of [src/lib/find-package-json.js] and of the bundled
    module that follows it in the same file: [findPackageJson], [findRoot],
    [findConfig], [extendConfig], [getMiddlewareMutation] and [getConfig],
    and beside them [packageJson], [randomUniqueId], [deepScanDir] and
    [eventsBus].

    The functions of the repository are translated line by line.  What they
    import from the platform is modelled in the first half of the file:
    - JavaScript values (section "Values") with truthiness and property access;
    - the [deepmerge] package with its default options (section "deepmerge");
    - [lodash/get] for string paths (section "lodash get");
    - the POSIX flavour of Node's [path] module (section "path");
    - Node's CommonJS loader, [require], [require.resolve] and
      [require.cache], over a file system of regular files (section "Process
      state").

    Modelling assumptions, all on the platform side:
    - numbers are integers (no NaN, no fractions); objects are finite maps from
      own enumerable string keys to values, so key order and properties
      inherited from [Object.prototype] are not represented, neither in
      configuration documents nor in the table [middlewares] (a scope named
      [hasOwnProperty] or [__proto__] is outside the model);
    - [deepmerge] is the 2.x/3.x line of the package, the one that ships the ES
      module the bundle imports: [mergeObject] tests [!target[key]];
    - a function value is represented by the outcome of calling it without
      arguments, and that call does not change the process state; running a
      script changes nothing but the caches of the loader;
    - lodash's bracket syntax in a path ([a[0].b]) is not parsed: a path is
      split at its dots;
    - the file system holds regular files under absolute normalized names; the
      loader's fall-backs (appended extensions, directory index files) are not
      represented;
    - [deepScanDir] reads a snapshot of the disk given as a tree, and a promise
      is represented by how it settles; the clock of [randomUniqueId] is a
      natural number of milliseconds. *)

From Stdlib Require Import Ascii String ZArith.
From stdpp Require Import gmap strings list fin_maps pretty.

Set Warnings "-register-all".
Local Open Scope string_scope.

(** ** Values *)

Inductive Value : Type :=
| VUndefined
| VNull
| VBool (b : bool)
| VNum (n : Z)
| VStr (s : string)
| VFun (ret : option Value)   (* [Some v]: a call returns [v]; [None]: it throws *)
| VArr (xs : list Value)
| VObj (m : gmap string Value).

(** [!!v] in JavaScript. *)
Definition truthy (v : Value) : bool :=
  match v with
  | VUndefined | VNull => false
  | VBool b => b
  | VNum n => negb (n =? 0)%Z
  | VStr s => negb (String.eqb s "")
  | VFun _ | VArr _ | VObj _ => true
  end.

(** [v == null]. *)
Definition isNullish (v : Value) : bool :=
  match v with VUndefined | VNull => true | _ => false end.

Definition isArray (v : Value) : bool :=
  match v with VArr _ => true | _ => false end.

Definition isFunction (v : Value) : bool :=
  match v with VFun _ => true | _ => false end.

(** Own index properties of an array or of a string: key [pretty i] for the
    [i]-th element. *)
Fixpoint index_lookup (xs : list Value) (i : nat) (key : string) : option Value :=
  match xs with
  | [] => None
  | x :: rest => if String.eqb key (pretty i) then Some x else index_lookup rest (S i) key
  end.

Fixpoint index_props (xs : list Value) (i : nat) : gmap string Value :=
  match xs with
  | [] => ∅
  | x :: rest => <[pretty i := x]> (index_props rest (S i))
  end.

Fixpoint chars (s : string) : list Value :=
  match s with
  | EmptyString => []
  | String c rest => VStr (String c EmptyString) :: chars rest
  end.

(** Own properties of a value: what [key in Object(v)] tests and [v[key]]
    reads.  [None]: the key is not a property of [v]. *)
Definition own_prop (v : Value) (key : string) : option Value :=
  match v with
  | VObj m => m !! key
  | VArr xs =>
      if String.eqb key "length" then Some (VNum (Z.of_nat (length xs)))
      else index_lookup xs 0 key
  | VStr s =>
      if String.eqb key "length" then Some (VNum (Z.of_nat (String.length s)))
      else index_lookup (chars s) 0 key
  | _ => None
  end.

(** [v[key]] for a [v] that is neither [null] nor [undefined]. *)
Definition prop (v : Value) (key : string) : Value :=
  default VUndefined (own_prop v key).

(** The entries [Object.keys(v).forEach] visits, for a [v] that is neither
    [null] nor [undefined] ([Object.keys] throws on those). *)
Definition enumerable (v : Value) : gmap string Value :=
  match v with
  | VObj m => m
  | VArr xs => index_props xs 0
  | VStr s => index_props (chars s) 0
  | _ => ∅
  end.

(** ** Exceptions and results *)

Inductive Exn : Type :=
| RangeError                          (* Maximum call stack size exceeded *)
| TypeError (msg : string)
| CannotFindModule (request : string) (* code MODULE_NOT_FOUND *)
| ENOENT (path : string)              (* no such file or directory, open path *)
| SyntaxError (file : string)
| Thrown (msg : string).              (* raised by user code *)

Inductive Result (A : Type) : Type :=
| Return (a : A)
| Throw (e : Exn).
Arguments Return {A} a.
Arguments Throw {A} e.

Definition rbind {A B} (r : Result A) (k : A → Result B) : Result B :=
  match r with
  | Return a => k a
  | Throw e => Throw e
  end.

(** ** deepmerge (default options) *)

(** [isMergeableObject]: a non-null object that is not a RegExp, a Date or a
    React element; the model has none of the three. *)
Definition isMergeableObject (v : Value) : bool :=
  match v with VArr _ | VObj _ => true | _ => false end.

(** [cloneUnlessOtherwiseSpecified(value, options)] with [options.clone]
    unset: [deepmerge(emptyTarget(value), value)] for a mergeable value, the
    value itself otherwise.  It is written out by recursion on the value;
    [clone_deepmerge] below gives back the library's equation. *)
Fixpoint clone (v : Value) : Value :=
  match v with
  | VArr xs => VArr (map clone xs)
  | VObj m => VObj (clone <$> m)
  | _ => v
  end.

(** The first loop of [mergeObject]: the clones of the target's entries when
    the target is mergeable, nothing otherwise.  An array never gets here. *)
Definition destination (target : Value) : gmap string Value :=
  match target with
  | VObj tm => clone <$> tm
  | _ => ∅
  end.

(** The value [deepmerge(target, source)] returns when it returns.
    - [sourceIsArray !== targetIsArray]: a clone of the source;
    - both arrays: [defaultArrayMerge], the concatenation with every element
      cloned;
    - otherwise [mergeObject]: each key of the source is written over the
      cloned target, merged recursively only when the source's value is
      mergeable and the target's value at that key is truthy. *)
Fixpoint deepmerge_val (target source : Value) {struct source} : Value :=
  match source with
  | VArr ys =>
      match target with
      | VArr xs => VArr (map clone (xs ++ ys)%list)
      | _ => clone source
      end
  | VObj sm =>
      match target with
      | VArr _ => clone source
      | _ =>
          VObj (map_imap (λ key sv,
                  Some (if negb (isMergeableObject sv) || negb (truthy (prop target key))
                        then clone sv
                        else deepmerge_val (prop target key) sv)) sm
                ∪ destination target)
      end
  | _ =>
      match target with
      | VArr _ => source
      | _ => VObj ((clone <$> enumerable source) ∪ destination target)
      end
  end.

(** Where the library throws a [TypeError]: [Object.keys(source)] on a
    [null] or [undefined] source, and [target[key]] on a [null] or [undefined]
    target, which [mergeObject] evaluates for the keys whose source value is
    mergeable.  Neither happens in a recursive call, which has a mergeable
    source and a truthy target. *)
Definition deepmerge_throws (target source : Value) : bool :=
  negb (isArray target) && negb (isArray source) &&
  (isNullish source ||
   (isNullish target &&
    bool_decide (map_Exists (λ _ sv, isMergeableObject sv = true) (enumerable source)))).

(** [deepmerge(target, source)], bound to [merge] in the source. *)
Definition deepmerge (target source : Value) : Result Value :=
  if deepmerge_throws target source
  then Throw (TypeError "Cannot convert undefined or null to object")
  else Return (deepmerge_val target source).

(** [merge.all(array)]: [array.reduce((prev, next) => deepmerge(prev, next), {})]. *)
Fixpoint reduce (prev : Value) (array : list Value) : Result Value :=
  match array with
  | [] => Return prev
  | next :: rest => rbind (deepmerge prev next) (λ acc, reduce acc rest)
  end.

Definition deepmerge_all (array : list Value) : Result Value := reduce (VObj ∅) array.

(** A size measure, for induction on values nested in lists and maps. *)
Fixpoint vsize (v : Value) : nat :=
  match v with
  | VArr xs => S (foldr (λ x n, vsize x + n) 0 xs)
  | VObj m => S (map_fold (λ _ x n, vsize x + n) 0 m)
  | _ => 1
  end.

(** ** lodash get *)

(** Splitting a string at a separator character: ["a.b"] gives [["a"; "b"]],
    the empty string gives [[""]]. *)
Fixpoint split_at (sep : ascii) (s : string) : list string :=
  match s with
  | EmptyString => [EmptyString]
  | String c rest =>
      if Ascii.eqb c sep then EmptyString :: split_at sep rest
      else match split_at sep rest with
           | seg :: segs => String c seg :: segs
           | [] => [String c EmptyString]
           end
  end.

Fixpoint contains (c : ascii) (s : string) : bool :=
  match s with
  | EmptyString => false
  | String c' rest => Ascii.eqb c' c || contains c rest
  end.

(** [castPath(value, object)] for a string: the string itself when [isKey]
    holds (it has no dot, or it is a property of the object), its
    dot-separated parts ([stringToPath]) otherwise. *)
Definition castPath (value : string) (object : Value) : list string :=
  if negb (contains "." value) || bool_decide (is_Some (own_prop object value))
  then [value]
  else split_at "." value.

(** The loop of [baseGet]: [while (object != null && index < length)]. *)
Fixpoint baseGet_loop (object : Value) (path : list string) : Value :=
  match path with
  | [] => object
  | key :: rest =>
      if isNullish object then VUndefined
      else baseGet_loop (prop object key) rest
  end.

(** [(index && index == length) ? object : undefined]. *)
Definition baseGet (object : Value) (path : string) : Value :=
  match castPath path object with
  | [] => VUndefined
  | keys => baseGet_loop object keys
  end.

(** [get(object, path, defaultValue)] of lodash. *)
Definition lodash_get (object : Value) (path : string) (defaultValue : Value) : Value :=
  let result := if isNullish object then VUndefined else baseGet object path in
  match result with
  | VUndefined => defaultValue
  | _ => result
  end.

(** ** path (POSIX) *)

Definition startsWithSlash (s : string) : bool :=
  match s with
  | String c _ => Ascii.eqb c "/"
  | EmptyString => false
  end.

Fixpoint endsWithSlash (s : string) : bool :=
  match s with
  | EmptyString => false
  | String c EmptyString => Ascii.eqb c "/"
  | String _ rest => endsWithSlash rest
  end.

(** One round of the loop of [normalizeString], taken at the end of a
    segment; [res] holds the segments kept so far, the last one first.  An
    empty segment and ["."] are dropped; [".."] removes the last segment kept
    unless there is none or it is [".."] itself, in which case [".."] is kept
    when the path may climb above its start. *)
Definition normalize_step (allowAboveRoot : bool) (res : list string) (seg : string)
  : list string :=
  if String.eqb seg "" || String.eqb seg "." then res
  else if String.eqb seg ".." then
    match res with
    | last :: kept =>
        if String.eqb last ".." then (if allowAboveRoot then ".." :: res else res)
        else kept
    | [] => if allowAboveRoot then [".."] else []
    end
  else seg :: res.

Definition normalize_segments (path : string) (allowAboveRoot : bool) : list string :=
  fold_left (normalize_step allowAboveRoot) (split_at "/" path) [].

Definition normalizeString (path : string) (allowAboveRoot : bool) : string :=
  String.concat "/" (rev (normalize_segments path allowAboveRoot)).

(** [path.normalize(path)]. *)
Definition path_normalize (path : string) : string :=
  if String.eqb path "" then "."
  else
    let isAbsolute := startsWithSlash path in
    let trailingSeparator := endsWithSlash path in
    let normalized := normalizeString path (negb isAbsolute) in
    if String.eqb normalized "" then
      (if isAbsolute then "/" else if trailingSeparator then "./" else ".")
    else
      let normalized := if trailingSeparator then normalized ++ "/" else normalized in
      if isAbsolute then "/" ++ normalized else normalized.

(** [path.join(...args)]: the non-empty arguments joined by a slash, then
    normalized. *)
Definition path_join (args : list string) : string :=
  match filter (λ arg, arg ≠ "") args with
  | [] => "."
  | parts => path_normalize (String.concat "/" parts)
  end.

(** The loop of [path.resolve], from the last argument to the first and then
    to [process.cwd()], until the path built is absolute. *)
Fixpoint resolve_loop (cwd : string) (args_rev : list string) (resolvedPath : string)
  : string * bool :=
  match args_rev with
  | [] =>
      if String.eqb cwd "" then (resolvedPath, false)
      else (cwd ++ "/" ++ resolvedPath, startsWithSlash cwd)
  | path :: rest =>
      if String.eqb path "" then resolve_loop cwd rest resolvedPath
      else if startsWithSlash path then (path ++ "/" ++ resolvedPath, true)
      else resolve_loop cwd rest (path ++ "/" ++ resolvedPath)
  end.

(** [path.resolve(...args)] in a process whose working directory is [cwd]. *)
Definition path_resolve (cwd : string) (args : list string) : string :=
  let '(resolvedPath, resolvedAbsolute) := resolve_loop cwd (rev args) "" in
  let resolvedPath := normalizeString resolvedPath (negb resolvedAbsolute) in
  if resolvedAbsolute then "/" ++ resolvedPath
  else if String.eqb resolvedPath "" then "." else resolvedPath.

Fixpoint dropwhile {A} (p : A → bool) (l : list A) : list A :=
  match l with
  | [] => []
  | x :: rest => if p x then dropwhile p rest else l
  end.

(** [path.dirname(path)].  The characters after the first are scanned from the
    end: trailing slashes are skipped, then the last component, and the
    slash found there ends the result. *)
Definition path_dirname (path : string) : string :=
  match path with
  | EmptyString => "."
  | String first rest =>
      let hasRoot := Ascii.eqb first "/" in
      let scanned :=
        dropwhile (λ c, negb (Ascii.eqb c "/"))
          (dropwhile (λ c, Ascii.eqb c "/") (rev (list_ascii_of_string rest))) in
      match scanned with
      | [] => if hasRoot then "/" else "."
      | _ :: before =>
          if hasRoot && Nat.eqb (length scanned) 1 then "//"
          else String first (string_of_list_ascii (rev before))
      end
  end.

(** ** Process state *)

(** What loading a file as a CommonJS module does: it yields the value the
    script leaves in [module.exports], or the script raises (a [SyntaxError]
    when it does not parse, whatever it throws when it runs). *)
Inductive Script : Type :=
| Exports (exports : Value)
| Raises (e : Exn).

Inductive LogLine : Type :=
| ConsoleError (msg : string)
| ConsoleLog (v : Value).

(** The Node process the module runs in: its environment, the file system it
    sees, the loader's two caches, and the module-level table
    [const middlewares = {}] together with what was written to the console. *)
Record Process : Type := mkProcess {
  cwd : string;                        (* process.cwd() *)
  PLEASURE_ROOT : option string;       (* process.env.PLEASURE_ROOT *)
  stack_limit : nat;                   (* call frames left before RangeError *)
  files : gmap string Script;
  pathCache : gset string;             (* Module._pathCache: requests resolved before *)
  require_cache : gmap string Value;   (* require.cache: filename to module.exports *)
  middlewares : gmap string (list Value);
  console : list LogLine
}.

Definition set_files (fs : gmap string Script) (p : Process) : Process :=
  mkProcess (cwd p) (PLEASURE_ROOT p) (stack_limit p) fs
            (pathCache p) (require_cache p) (middlewares p) (console p).

Definition set_pathCache (pc : gset string) (p : Process) : Process :=
  mkProcess (cwd p) (PLEASURE_ROOT p) (stack_limit p) (files p)
            pc (require_cache p) (middlewares p) (console p).

Definition set_require_cache (rc : gmap string Value) (p : Process) : Process :=
  mkProcess (cwd p) (PLEASURE_ROOT p) (stack_limit p) (files p)
            (pathCache p) rc (middlewares p) (console p).

Definition set_middlewares (ms : gmap string (list Value)) (p : Process) : Process :=
  mkProcess (cwd p) (PLEASURE_ROOT p) (stack_limit p) (files p)
            (pathCache p) (require_cache p) ms (console p).

Definition set_console (out : list LogLine) (p : Process) : Process :=
  mkProcess (cwd p) (PLEASURE_ROOT p) (stack_limit p) (files p)
            (pathCache p) (require_cache p) (middlewares p) out.

(** Computations that read and update the process and may throw.  An
    exception leaves the state as it was when it was raised. *)
Definition M (A : Type) : Type := Process → Result A * Process.

Definition ret {A} (a : A) : M A := λ p, (Return a, p).

Definition bind {A B} (c : M A) (k : A → M B) : M B :=
  λ p, match c p with
       | (Return a, p') => k a p'
       | (Throw e, p') => (Throw e, p')
       end.

Definition lift {A} (r : Result A) : M A := λ p, (r, p).

Definition reads {A} (f : Process → Result A) : M A := λ p, (f p, p).

Definition modify (f : Process → Process) : M () := λ p, (Return (), f p).

Declare Scope js_scope.
Delimit Scope js_scope with js.
Notation "x <- c ;; k" := (bind c (λ x, k))
  (at level 100, c at next level, right associativity) : js_scope.
Notation "c ;; k" := (bind c (λ _, k))
  (at level 100, right associativity) : js_scope.

(** A string that may be [undefined] or [null], as a condition: the empty
    string is falsy too. *)
Definition nonempty (a : option string) : option string :=
  match a with
  | Some s => if String.eqb s "" then None else Some s
  | None => None
  end.

(** [a || b] on a possibly missing string. *)
Definition or_else (a : option string) (b : string) : string :=
  default b (nonempty a).

(** [fs.existsSync(path)]; a relative path is taken from the working
    directory. *)
Definition existsSync (p : Process) (path : string) : bool :=
  bool_decide (is_Some (files p !! path_resolve (cwd p) [path])).

(** [console.error(msg)] and [console.log(v)]; both return [undefined]. *)
Definition console_error (msg : string) : M Value :=
  λ p, (Return VUndefined, set_console (console p ++ [ConsoleError msg])%list p).

Definition console_log (v : Value) : M Value :=
  λ p, (Return VUndefined, set_console (console p ++ [ConsoleLog v])%list p).

(** [Module._resolveFilename] for an absolute request: a request resolved
    before is answered from the path cache; otherwise the file must exist. *)
Definition require_resolve (request : string) : M string :=
  λ p, if bool_decide (request ∈ pathCache p) then (Return request, p)
       else if bool_decide (is_Some (files p !! request))
            then (Return request, set_pathCache ({[request]} ∪ pathCache p) p)
            else (Throw (CannotFindModule request), p).

(** [Module._load]: the cached exports when the filename is in
    [require.cache]; otherwise the file is read and run, and its exports are
    cached when it ran to the end. *)
Definition load (filename : string) : M Value :=
  λ p, match require_cache p !! filename with
       | Some exports => (Return exports, p)
       | None =>
           match files p !! filename with
           | None => (Throw (ENOENT filename), p)
           | Some (Raises e) => (Throw e, p)
           | Some (Exports exports) =>
               (Return exports, set_require_cache (<[filename := exports]> (require_cache p)) p)
           end
       end.

(** [require(request)]. *)
Definition require (request : string) : M Value :=
  (filename <- require_resolve request ;; load filename)%js.

(** [delete require.cache[filename]]. *)
Definition delete_require_cache (filename : string) : M () :=
  modify (λ p, set_require_cache (delete filename (require_cache p)) p).

(** ** The module *)

(** [findPackageJson(dir)], lines 4-17 and 45-58.  [depth] counts the call
    frames left: the function calls itself once per directory, and a call
    with no frame left raises [RangeError].  [Return None] is [undefined]. *)
Fixpoint findPackageJson (depth : nat) (p : Process) (dir : option string)
  : Result (option string) :=
  match depth with
  | O => Throw RangeError
  | S depth' =>
      let dir := or_else dir (path_resolve (cwd p) [cwd p; or_else (PLEASURE_ROOT p) "./"]) in
      let local := path_join [dir; "package.json"] in
      if negb (existsSync p local) then
        if String.eqb local "/" then Return None
        else findPackageJson depth' p (Some (path_join [dir; "../"]))
      else Return (Some local)
  end.

(** [findRoot(...paths)], lines 78-80.  [path.dirname(undefined)] raises a
    [TypeError]. *)
Definition findRoot (paths : list string) : M string :=
  reads (λ p,
    match nonempty (PLEASURE_ROOT p) with
    | Some root => Return (path_resolve (cwd p) (root :: paths))
    | None =>
        rbind (findPackageJson (stack_limit p) p None) (λ found,
          match found with
          | Some local => Return (path_resolve (cwd p) (path_dirname local :: paths))
          | None => Throw (TypeError "The path argument must be of type string")
          end)
    end).

(** [findConfig()], lines 86-88. *)
Definition findConfig : M string := findRoot ["pleasure.config.js"].

(** [extendConfig(scope = '', replacement)], lines 196-206. *)
Definition extendConfig (scope : string) (replacement : Value) : M Value :=
  if String.eqb scope "" || negb (truthy replacement) then
    console_error "provide both a scope & replacement"
  else
    (modify (λ p, match middlewares p !! scope with
                  | Some _ => p
                  | None => set_middlewares (<[scope := []]> (middlewares p)) p
                  end) ;;
     modify (λ p, set_middlewares
                    (alter (λ registered, (registered ++ [replacement])%list) scope (middlewares p)) p) ;;
     ret VUndefined)%js.

(** The property key a scope is converted to: [null] reads as ["null"]. *)
Definition property_key (scope : option string) : string :=
  default "null" scope.

(** [mutation()] for a function value. *)
Definition call (f : Value) : Result Value :=
  match f with
  | VFun (Some v) => Return v
  | VFun None => Throw (Thrown "the contribution raised")
  | _ => Throw (TypeError "mutation is not a function")
  end.

(** The body of the [forEach] callback of [getMiddlewareMutation], lines
    216-220, as the new value of [middlewareMutation]. *)
Definition apply_mutation (middlewareMutation mutation : Value) : Result Value :=
  if isFunction mutation
  then rbind (call mutation) (λ produced, deepmerge middlewareMutation produced)
  else deepmerge middlewareMutation mutation.

(** [middlewares[scope].forEach(...)], in the order of the array. *)
Fixpoint forEach_mutation (mutations : list Value) (middlewareMutation : Value)
  : Result Value :=
  match mutations with
  | [] => Return middlewareMutation
  | mutation :: rest =>
      rbind (apply_mutation middlewareMutation mutation) (forEach_mutation rest)
  end.

(** [getMiddlewareMutation(scope)], lines 208-226. *)
Definition getMiddlewareMutation (scope : option string) : M Value :=
  λ p, match middlewares p !! property_key scope with
       | None => (Return (VObj ∅), p)
       | Some mutations =>
           (middlewareMutation <- lift (forEach_mutation mutations (VObj ∅)) ;;
            console_log (VObj {[ "middlewareMutation" := middlewareMutation ]}) ;;
            ret middlewareMutation)%js p
       end.

(** [getConfig(scope = null, mergeWith = {}, force = false,
    runMiddleware = true)], lines 255-272. *)
Definition getConfig (scope : option string) (mergeWith : Value)
    (force runMiddleware : bool) : M Value :=
  (configFile <- findConfig ;;
   (if force
    then (filename <- require_resolve configFile ;; delete_require_cache filename)
    else ret ()) ;;
   loadedConfig <- require configFile ;;
   mutation <- (if runMiddleware then getMiddlewareMutation scope else ret (VObj ∅)) ;;
   lift (deepmerge_all
           [ VObj ∅;
             match nonempty scope with
             | Some path => lodash_get loadedConfig path (VObj ∅)
             | None => loadedConfig
             end;
             mutation;
             if truthy mergeWith then mergeWith else VObj ∅ ]))%js.

(** ** Vocabulary of the statements *)

(** [emptyTarget(val)] of deepmerge. *)
Definition emptyTarget (val : Value) : Value :=
  if isArray val then VArr [] else VObj ∅.

(** One key of the merge of two objects: the source's value when the source
    has the key, merged with the target's value when the first is mergeable
    and the second truthy; the target's entry otherwise. *)
Definition merged_entry (tv sv : option Value) : option Value :=
  match sv with
  | Some s =>
      Some (if isMergeableObject s && truthy (default VUndefined tv)
            then deepmerge_val (default VUndefined tv) s
            else s)
  | None => tv
  end.

(** The four steps of [getConfig], named.  [loadConfig] is lines 256-262:
    the path of the configuration file, the forced eviction, the load. *)
Definition loadConfig (force : bool) : M Value :=
  (configFile <- findConfig ;;
   (if force
    then (filename <- require_resolve configFile ;; delete_require_cache filename)
    else ret ()) ;;
   require configFile)%js.

(** Line 267, the second element of the array given to [merge.all]. *)
Definition base_layer (scope : option string) (loadedConfig : Value) : Value :=
  match nonempty scope with
  | Some path => lodash_get loadedConfig path (VObj ∅)
  | None => loadedConfig
  end.

(** Line 268, the third element. *)
Definition mutation_layer (runMiddleware : bool) (scope : option string) : M Value :=
  if runMiddleware then getMiddlewareMutation scope else ret (VObj ∅).

(** Line 269, the fourth element. *)
Definition override_layer (mergeWith : Value) : Value :=
  if truthy mergeWith then mergeWith else VObj ∅.

(** Lines 265-271 for a configuration already loaded. *)
Definition mergeLayers (loadedConfig : Value) (scope : option string)
    (mergeWith : Value) (runMiddleware : bool) : M Value :=
  (mutation <- mutation_layer runMiddleware scope ;;
   lift (deepmerge_all
           [VObj ∅; base_layer scope loadedConfig; mutation; override_layer mergeWith]))%js.

(** The elements of the array an object holds at a key, if it holds one. *)
Definition array_items (entry : option Value) : list Value :=
  match entry with
  | Some (VArr xs) => xs
  | _ => []
  end.

(** The object has an array at the key, or does not have the key. *)
Definition array_or_absent (entry : option Value) : Prop :=
  match entry with
  | Some (VArr _) | None => True
  | Some _ => False
  end.

(** [q] is [p] after file contents were rewritten: the same files exist, the
    environment, the loader's caches and the registered contributions are
    those of [p].  The console is left free. *)
Definition contents_changed (p q : Process) : Prop :=
  cwd q = cwd p ∧ PLEASURE_ROOT q = PLEASURE_ROOT p ∧ stack_limit q = stack_limit p ∧
  dom (files q) = dom (files p) ∧
  pathCache q = pathCache p ∧ require_cache q = require_cache p ∧
  middlewares q = middlewares p.

(** What a call of the module never changes: the environment, the file
    system and the registered contributions. *)
Definition same_world (p q : Process) : Prop :=
  cwd q = cwd p ∧ PLEASURE_ROOT q = PLEASURE_ROOT p ∧ stack_limit q = stack_limit p ∧
  files q = files p ∧ middlewares q = middlewares p.

(** The process after [filename] was resolved, loaded and cached. *)
Definition loaded (filename : string) (exports : Value) (p : Process) : Process :=
  set_require_cache (<[filename := exports]> (require_cache p))
    (set_pathCache ({[filename]} ∪ pathCache p) p).


(** ** Sample processes *)

(** A project in [/home/dev/app] with a marker file and a configuration
    file that exports [config]; the process runs in its [src] directory and
    has loaded nothing yet. *)
Definition project (config : Value) : Process :=
  mkProcess "/home/dev/app/src" None 64
    {[ "/home/dev/app/package.json" := Exports (VObj ∅);
       "/home/dev/app/pleasure.config.js" := Exports config ]}
    ∅ ∅ ∅ [].

Definition api_config : Value :=
  VObj {[ "api" := VObj {[ "port" := VNum 3000; "host" := VStr "x" ]} ]}.

Definition tags_config : Value :=
  VObj {[ "tags" := VArr [VNum 1] ]}.

(** [project api_config] after a first [getConfig()], with the configuration
    file deleted since: the loader still holds the module. *)
Definition stale_project : Process :=
  mkProcess "/home/dev/app/src" None 64
    {[ "/home/dev/app/package.json" := Exports (VObj ∅) ]}
    {[ "/home/dev/app/pleasure.config.js" ]}
    {[ "/home/dev/app/pleasure.config.js" := api_config ]}
    ∅ [].

(** [project api_config] after a first [getConfig()], with the configuration
    file rewritten since to export [config]. *)
Definition edited_project (config : Value) : Process :=
  mkProcess "/home/dev/app/src" None 64
    {[ "/home/dev/app/package.json" := Exports (VObj ∅);
       "/home/dev/app/pleasure.config.js" := Exports config ]}
    {[ "/home/dev/app/pleasure.config.js" ]}
    {[ "/home/dev/app/pleasure.config.js" := api_config ]}
    ∅ [].

Definition port_config (port : Z) : Value :=
  VObj {[ "api" := VObj {[ "port" := VNum port ]} ]}.

(** ** More of the module *)

(** The directory [findPackageJson] is given when it is called without one,
    and the one it looks at after [n] steps up. *)
Definition start_dir (p : Process) (dir : option string) : string :=
  or_else dir (path_resolve (cwd p) [cwd p; or_else (PLEASURE_ROOT p) "./"]).

Fixpoint ascent (n : nat) (dir : string) : string :=
  match n with
  | O => dir
  | S n' => ascent n' (path_join [dir; "../"])
  end.

(** The path of the marker file in a directory, [local] in the source. *)
Definition marker_in (dir : string) : string := path_join [dir; "package.json"].

(** [project api_config] after [extendConfig('api', { port: 4000 })], the
    example of the source's documentation. *)
Definition extended_project : Process :=
  snd (extendConfig "api" (VObj {[ "port" := VNum 4000 ]}) (project api_config)).

(** [project api_config] after a contribution that throws when it is called
    was registered for ["api"]. *)
Definition poisoned_project : Process :=
  snd (extendConfig "api" (VFun None) (project api_config)).

(** A segment that [normalizeString] keeps in an absolute path: it is not
    empty, has no slash and is neither [.] nor [..]. *)
Definition plain (seg : string) : Prop :=
  seg ≠ "" ∧ seg ≠ "." ∧ seg ≠ ".." ∧ contains "/" seg = false.

(** The absolute path made of the given segments. *)
Definition absolute (segs : list string) : string := "/" ++ String.concat "/" segs.

(** [path] is an absolute path in normal form. *)
Definition normal_absolute (path : string) : Prop :=
  ∃ segs, Forall plain segs ∧ path = absolute segs.

(** A directory as the ascent names it: an absolute path in normal form,
    with or without a slash at its end. *)
Definition dirlike (dir : string) : Prop :=
  ∃ segs tail, Forall plain segs ∧ (tail = "" ∨ tail = "/") ∧ dir = absolute segs ++ tail.

(** [packageJson()], lines 90-98. *)
Definition packageJson : M Value :=
  (file <- findRoot ["./package.json"] ;;
   present <- reads (λ p, Return (existsSync p file)) ;;
   if negb present then ret (VObj ∅) else require file)%js.

(** A process whose root is given by [PLEASURE_ROOT]; the root has a
    configuration file and no [package.json]. *)
Definition rooted_project : Process :=
  mkProcess "/home/dev/app/src" (Some "/srv/app") 64
    {[ "/srv/app/pleasure.config.js" := Exports api_config ]}
    ∅ ∅ ∅ [].

(** A project whose [package.json] holds a name. *)
Definition manifest (name : string) : Value := VObj {[ "name" := VStr name ]}.

Definition manifest_project (name : string) : Process :=
  mkProcess "/home/dev/app/src" None 64
    {[ "/home/dev/app/package.json" := Exports (manifest name);
       "/home/dev/app/pleasure.config.js" := Exports api_config ]}
    ∅ ∅ ∅ [].

(** The table of contributions as [extendConfig] keeps it: no entry under
    the empty scope, no empty entry, no falsy contribution. *)
Definition registry_ok (ms : gmap string (list Value)) : Prop :=
  ∀ scope mutations, ms !! scope = Some mutations →
    scope ≠ "" ∧ mutations ≠ [] ∧ Forall (λ c, truthy c = true) mutations.

(** A sequence of calls of [extendConfig], each with its scope and its
    replacement. *)
Fixpoint extendConfig_all (calls : list (string * Value)) (p : Process) : Process :=
  match calls with
  | [] => p
  | (scope, replacement) :: rest =>
      extendConfig_all rest (snd (extendConfig scope replacement p))
  end.

(** [randomUniqueId()], lines 40-43.  [letter] is
    [Math.floor(Math.random() * 26)], a number from 0 to 25, and [now] is
    [Date.now()], the milliseconds since the epoch; a number appended to a
    string is written in decimal. *)
Definition randomUniqueId (letter : nat) (now : N) : string :=
  String (ascii_of_nat (65 + letter)) (pretty now).

(** ** deepScanDir *)

(** How the promise [deepScanDir] returns settles. *)
Inductive ScanError : Type :=
| ReferenceError (name : string)       (* name is not defined *)
| ReaddirFailed (directory : string)   (* fs.readdir rejected *)
| FilterFailed (file : string).        (* the filter threw or rejected *)

Inductive Settled (A : Type) : Type :=
| Fulfilled (a : A)
| Rejected (e : ScanError).
Arguments Fulfilled {A} a.
Arguments Rejected {A} e.

(** What [directory] names on disk: a file (anything [lstat] does not report
    as a directory), a directory with its entries in the order of
    [fs.readdir], or a directory [fs.readdir] fails on. *)
Inductive Entry : Type :=
| File
| Dir (children : list (string * Entry))
| Broken.

Definition isDirectory (entry : Entry) : bool :=
  match entry with
  | File => false
  | Dir _ | Broken => true
  end.

(** An element of [exclude]: a string, a regular expression without flags
    (given by its [test]), or anything else. *)
Inductive Pattern : Type :=
| PString (s : string)
| PRegExp (test : string → bool)
| POther.

(** The argument [exclude] when it is given: an array, or a single value
    that [castArray] wraps. *)
Inductive Exclude : Type :=
| Many (patterns : list Pattern)
| One (pattern : Pattern).

Definition castArray (exclude : Exclude) : list Pattern :=
  match exclude with
  | Many patterns => patterns
  | One pattern => [pattern]
  end.

(** [s.indexOf(pattern) >= 0]. *)
Fixpoint includes (pattern s : string) : bool :=
  String.prefix pattern s ||
  match s with
  | EmptyString => false
  | String _ rest => includes pattern rest
  end.

(** The default of [exclude], [[/node_modules/]]. *)
Definition node_modules : Pattern := PRegExp (includes "node_modules").

(** Lines 125-137: [each(castArray(exclude), ...)] sets [excluded] at the
    first pattern that matches. *)
Definition excluded (exclude : Exclude) (file : string) : bool :=
  existsb (λ pattern,
             match pattern with
             | PString s => includes s file
             | PRegExp test => test file
             | POther => false
             end) (castArray exclude).

(** Lines 116-149, the callback of [Promise.each] run over the listing in
    order; [found] is the array of the same name.  [path] and [lstat] are
    free identifiers of the module: [path_bound] and [lstat_bound] say whether
    the environment binds them, to Node's [path] and to [fs.lstat]; reading an
    identifier that is not bound throws a [ReferenceError].  [scan] is the
    recursive call. *)
Definition scan_listing (path_bound lstat_bound : bool)
    (scan : string → Entry → Settled (list string))
    (directory : string) (exclude : Exclude) (filter : option (string → Settled bool))
  : list (string * Entry) → list string → Settled (list string) :=
  fix each (files : list (string * Entry)) (found : list string) :=
    match files with
    | [] => Fulfilled found
    | (name, child) :: rest =>
        if negb path_bound then Rejected (ReferenceError "path")
        else
          let file := path_join [directory; name] in
          if negb lstat_bound then Rejected (ReferenceError "lstat")
          else
            match (if isDirectory child then Fulfilled true
                   else match filter with
                        | Some accepts => accepts file
                        | None => Fulfilled true
                        end) with
            | Rejected e => Rejected e
            | Fulfilled false => each rest found
            | Fulfilled true =>
                if excluded exclude file then each rest found
                else if isDirectory child then
                  match scan file child with
                  | Rejected e => Rejected e
                  | Fulfilled below => each rest (found ++ below)%list
                  end
                else each rest (found ++ [file])%list
            end
    end.

(** [deepScanDir(directory, { exclude = [/node_modules/], filter } = {})],
    lines 111-152, on the part of the disk [entry] that [directory] names. *)
Fixpoint deepScanDir (path_bound lstat_bound : bool) (directory : string) (entry : Entry)
    (exclude : option Exclude) (filter : option (string → Settled bool))
  : Settled (list string) :=
  let exclude := default (Many [node_modules]) exclude in
  match entry with
  | File | Broken => Rejected (ReaddirFailed directory)
  | Dir files =>
      scan_listing path_bound lstat_bound
        (λ file child, deepScanDir path_bound lstat_bound file child (Some exclude) filter)
        directory exclude filter files []
  end.

(** The filter lets the file through. *)
Definition accepted (filter : option (string → Settled bool)) (file : string) : Prop :=
  match filter with
  | Some accepts => accepts file = Fulfilled true
  | None => True
  end.

(** [kept exclude filter directory entry file]: [file] is a file below
    [directory] that the scan keeps: it is not excluded and the filter lets
    it through, and no directory on the way down to it is excluded. *)
Inductive kept (exclude : Exclude) (filter : option (string → Settled bool))
  : string → Entry → string → Prop :=
| kept_here directory files name :
    (name, File) ∈ files →
    accepted filter (path_join [directory; name]) →
    excluded exclude (path_join [directory; name]) = false →
    kept exclude filter directory (Dir files) (path_join [directory; name])
| kept_below directory files name child file :
    (name, child) ∈ files →
    isDirectory child = true →
    excluded exclude (path_join [directory; name]) = false →
    kept exclude filter (path_join [directory; name]) child file →
    kept exclude filter directory (Dir files) file.

(** A source tree with dependencies, for the examples of the scan. *)
Definition sample_tree : Entry :=
  Dir [ ("index.js", File);
        ("node_modules", Dir [("dep", Broken)]);
        ("lib", Dir [("a.js", File); ("a.md", File)]) ].

(** A filter that lets through the names that have [.js] in them. *)
Definition only_js (file : string) : Settled bool :=
  Fulfilled (includes ".js" file).

(** ** EventBus *)

(** The names an [EventEmitter] answers to, its own and the inherited ones:
    what [ev in PleasureMainEvent] tests. *)
Definition EventEmitter_members : list string :=
  [ "addListener"; "on"; "once"; "prependListener"; "prependOnceListener";
    "removeListener"; "off"; "removeAllListeners"; "setMaxListeners";
    "getMaxListeners"; "listeners"; "rawListeners"; "emit"; "listenerCount";
    "eventNames" ].

(** The module-level [let singleton], here [singleton_api], and the number
    of emitters constructed so far.  An api object maps the name of a method
    to the emitter the method is bound to; emitters are numbered in the order
    of their construction. *)
Record Bus : Type := mkBus {
  singleton_api : option (gmap string nat);
  emitters : nat
}.

(** [eventsBus()], lines 156-175. *)
Definition eventsBus (b : Bus) : gmap string nat * Bus :=
  match singleton_api b with
  | Some api => (api, b)
  | None =>
      let PleasureMainEvent := emitters b in
      let api :=
        foldl (λ (api : gmap string nat) ev,
                 if bool_decide (ev ∈ EventEmitter_members)
                 then <[ev := PleasureMainEvent]> api
                 else api)
              ∅ ["on"; "removeListener"; "once"; "emit"] in
      (api, mkBus (Some api) (S (emitters b)))
  end.

(** * Values and deepmerge *)

Lemma vsize_elem xs x : x ∈ xs → vsize x < vsize (VArr xs).
Proof. simpl. induction 1; simpl; lia. Qed.

Lemma vsize_lookup (m : gmap string Value) k x :
  m !! k = Some x → vsize x < vsize (VObj m).
Proof.
  intros Hk. simpl.
  rewrite (map_fold_delete_L _ _ k x m); [lia| |done].
  intros; lia.
Qed.

Lemma Value_nested_ind (P : Value → Prop) :
  P VUndefined → P VNull → (∀ b, P (VBool b)) → (∀ n, P (VNum n)) →
  (∀ s, P (VStr s)) → (∀ r, P (VFun r)) →
  (∀ xs, Forall P xs → P (VArr xs)) →
  (∀ m, map_Forall (λ _, P) m → P (VObj m)) →
  ∀ v, P v.
Proof.
  intros Hu Hn Hb Hz Hs Hf Ha Ho v.
  remember (vsize v) as n eqn:Hsize. revert v Hsize.
  induction (lt_wf n) as [n _ IH]. intros v ->.
  destruct v; auto.
  - apply Ha, Forall_forall. intros x Hx.
    eapply IH; [apply (vsize_elem _ _ Hx)|done].
  - apply Ho. intros k x Hk.
    eapply IH; [apply (vsize_lookup _ _ _ Hk)|done].
Qed.

(** Values are immutable here, so a clone is the value itself. *)
Lemma clone_id v : clone v = v.
Proof.
  induction v as [| | | | | |xs IH|m IH] using Value_nested_ind; simpl; try done.
  - f_equal. induction IH; simpl; [done|]. by f_equal.
  - f_equal. apply map_eq. intros k. rewrite lookup_fmap.
    destruct (m !! k) as [x|] eqn:Hk; simpl; [|done].
    f_equal. by apply (IH k).
Qed.

Lemma map_clone_id xs : map clone xs = xs.
Proof. induction xs; simpl; [done|]. by rewrite clone_id, IHxs. Qed.

Lemma fmap_clone_id (m : gmap string Value) : clone <$> m = m.
Proof.
  apply map_eq. intros k. rewrite lookup_fmap.
  destruct (m !! k); simpl; [|done]. by rewrite clone_id.
Qed.

Lemma destination_obj tm : destination (VObj tm) = tm.
Proof. apply fmap_clone_id. Qed.

(** The library's own equation for [cloneUnlessOtherwiseSpecified]. *)
Lemma clone_deepmerge v :
  clone v = if isMergeableObject v then deepmerge_val (emptyTarget v) v else v.
Proof.
  destruct v; simpl; try done.
  f_equal. apply map_eq. intros k.
  rewrite lookup_union, map_lookup_imap, !lookup_fmap, lookup_empty.
  destruct (m !! k); simpl; [|done].
  by rewrite orb_true_r.
Qed.

(** The example of the package's documentation: objects merge key by key,
    arrays are concatenated. *)
Example deepmerge_readme :
  deepmerge
    (VObj {[ "foo" := VObj {[ "bar" := VNum 3 ]};
             "array" := VArr [VObj {[ "does" := VStr "work"; "too" := VArr [VNum 1; VNum 2; VNum 3] ]}] ]})
    (VObj {[ "foo" := VObj {[ "baz" := VNum 4 ]};
             "quux" := VNum 5;
             "array" := VArr [VObj {[ "does" := VStr "work"; "too" := VArr [VNum 4; VNum 5; VNum 6] ]};
                              VObj {[ "really" := VStr "yes" ]}] ]})
  = Return
      (VObj {[ "foo" := VObj {[ "bar" := VNum 3; "baz" := VNum 4 ]};
               "array" := VArr [VObj {[ "does" := VStr "work"; "too" := VArr [VNum 1; VNum 2; VNum 3] ]};
                                VObj {[ "does" := VStr "work"; "too" := VArr [VNum 4; VNum 5; VNum 6] ]};
                                VObj {[ "really" := VStr "yes" ]}];
               "quux" := VNum 5 ]}).
Proof. vm_compute. reflexivity. Qed.

Example deepmerge_null_source :
  deepmerge (VObj ∅) VNull = Throw (TypeError "Cannot convert undefined or null to object").
Proof. reflexivity. Qed.

Example deepmerge_string_source :
  deepmerge (VObj ∅) (VStr "ab") = Return (VObj {[ "0" := VStr "a"; "1" := VStr "b" ]}).
Proof. vm_compute. reflexivity. Qed.

Example lodash_get_nested :
  lodash_get api_config "api.port" (VObj ∅) = VNum 3000.
Proof. vm_compute. reflexivity. Qed.

Example lodash_get_missing :
  lodash_get api_config "db.port" (VObj ∅) = VObj ∅.
Proof. vm_compute. reflexivity. Qed.

Lemma deepmerge_val_obj tm sm :
  ∃ r, deepmerge_val (VObj tm) (VObj sm) = VObj r ∧
       ∀ k, r !! k = merged_entry (tm !! k) (sm !! k).
Proof.
  eexists. split; [reflexivity|]. intros k.
  rewrite lookup_union, map_lookup_imap, destination_obj.
  unfold merged_entry, prop. simpl.
  destruct (sm !! k) as [s|]; simpl.
  - rewrite clone_id.
    destruct (isMergeableObject s), (truthy (default VUndefined (tm !! k))); simpl;
      by destruct (tm !! k).
  - by destruct (tm !! k).
Qed.

Lemma deepmerge_obj_obj tm sm :
  deepmerge (VObj tm) (VObj sm) = Return (deepmerge_val (VObj tm) (VObj sm)).
Proof. done. Qed.

(** * Paths *)

Example path_join_parent : path_join ["/home/dev/app/src"; "../"] = "/home/dev/app/".
Proof. reflexivity. Qed.

Example path_join_relative : path_join ["./"; "../"] = "../".
Proof. reflexivity. Qed.

Example path_resolve_default : path_resolve "/home/dev/app" ["/home/dev/app"; "./"] = "/home/dev/app".
Proof. reflexivity. Qed.

Example path_dirname_marker : path_dirname "/home/dev/app/package.json" = "/home/dev/app".
Proof. reflexivity. Qed.

Example path_dirname_top : path_dirname "/package.json" = "/".
Proof. reflexivity. Qed.

Lemma length_append (s t : string) :
  String.length (s ++ t) = String.length s + String.length t.
Proof.
  induction s as [|c s IH]; [done|].
  change (S (String.length (s ++ t)) = S (String.length s + String.length t)).
  by rewrite IH.
Qed.

Lemma append_cons c (s t : string) : String c s ++ t = String c (s ++ t).
Proof. done. Qed.

Lemma split_at_nonempty sep s : split_at sep s ≠ [].
Proof.
  destruct s as [|c s]; simpl; [done|].
  destruct (Ascii.eqb c sep); [done|]. by destruct (split_at sep s).
Qed.

(** A separator in the middle of a string separates its parts. *)
Lemma split_at_append sep s t :
  split_at sep (s ++ String sep t) = (split_at sep s ++ split_at sep t)%list.
Proof.
  induction s as [|c s IH].
  - change ("" ++ String sep t) with (String sep t). cbn. by rewrite Ascii.eqb_refl.
  - rewrite append_cons. cbn.
    destruct (Ascii.eqb c sep); [by rewrite IH|].
    rewrite IH. pose proof (split_at_nonempty sep s).
    by destruct (split_at sep s).
Qed.

Lemma length_concat_last sep (segs : list string) (seg : string) :
  (String.length seg ≤ String.length (String.concat sep (segs ++ [seg])))%nat.
Proof.
  induction segs as [|x segs IH]; simpl; [done|].
  destruct (segs ++ [seg])%list eqn:Hsegs.
  - by destruct segs.
  - rewrite !length_append. lia.
Qed.

(** The file name a path is joined with stays its last segment. *)
Lemma normalizeString_package_json dir allowAboveRoot :
  (12 ≤ String.length (normalizeString (dir ++ "/package.json") allowAboveRoot))%nat.
Proof.
  unfold normalizeString, normalize_segments.
  rewrite (split_at_append "/" dir "package.json").
  rewrite fold_left_app. cbn [fold_left split_at].
  change (split_at "/" "package.json") with ["package.json"].
  cbn [fold_left]. unfold normalize_step at 1; cbn [String.eqb Ascii.eqb Bool.eqb orb].
  cbn [rev]. apply (length_concat_last "/" _ "package.json").
Qed.

Lemma path_normalize_package_json dir :
  (12 ≤ String.length (path_normalize (dir ++ "/package.json")))%nat.
Proof.
  unfold path_normalize.
  pose proof (normalizeString_package_json dir
                (negb (startsWithSlash (dir ++ "/package.json")))) as Hlen.
  destruct (String.eqb_spec (dir ++ "/package.json") "") as [Hempty|_].
  { apply (f_equal String.length) in Hempty. rewrite length_append in Hempty.
    cbn in Hempty. lia. }
  cbv zeta.
  destruct (String.eqb_spec
              (normalizeString (dir ++ "/package.json")
                 (negb (startsWithSlash (dir ++ "/package.json")))) "") as [Hn|_].
  { rewrite Hn in Hlen. cbn in Hlen. lia. }
  destruct (endsWithSlash _), (startsWithSlash _);
    cbn [negb] in Hlen; rewrite ?length_append; cbn; lia.
Qed.

(** [local], the path [findPackageJson] tests, is never the root
    directory. *)
Lemma path_join_package_json_not_root dir :
  path_join [dir; "package.json"] ≠ "/".
Proof.
  intros Heq. apply (f_equal String.length) in Heq. revert Heq.
  unfold path_join. cbn [filter list_filter].
  destruct (decide (dir ≠ "")) as [Hdir|Hdir].
  - cbn [filter list_filter]. rewrite decide_True by done.
    change (String.concat "/" [dir; "package.json"]) with (dir ++ "/package.json").
    pose proof (path_normalize_package_json dir). cbn. lia.
  - apply dec_stable in Hdir as ->. by vm_compute.
Qed.

(** * The ascent of [findPackageJson] *)

Example join_root_package_json : path_join ["/"; "package.json"] = "/package.json".
Proof. reflexivity. Qed.

Example join_root_parent : path_join ["/"; "../"] = "/".
Proof. reflexivity. Qed.

(** The test [local === '/'] never succeeds, so the branch that returns
    [undefined] is never taken. *)
Lemma findPackageJson_never_undefined depth p dir :
  findPackageJson depth p dir ≠ Return None.
Proof.
  revert dir. induction depth as [|depth IH]; intros dir; simpl; [done|].
  destruct (existsSync p _); simpl; [done|].
  destruct (String.eqb_spec (path_join [or_else dir
              (path_resolve (cwd p) [cwd p; or_else (PLEASURE_ROOT p) "./"]);
              "package.json"]) "/") as [Heq|_]; [|apply IH].
  by apply path_join_package_json_not_root in Heq.
Qed.

(** Without a marker file on the way up, the ascent uses up the stack. *)
Lemma findPackageJson_unmarked depth p dir :
  (∀ path, existsSync p path = false) →
  findPackageJson depth p dir = Throw RangeError.
Proof.
  intros Hnone. revert dir.
  induction depth as [|depth IH]; intros dir; simpl; [done|].
  rewrite Hnone. simpl.
  destruct (String.eqb_spec (path_join [or_else dir
              (path_resolve (cwd p) [cwd p; or_else (PLEASURE_ROOT p) "./"]);
              "package.json"]) "/") as [Heq|_]; [|apply IH].
  by apply path_join_package_json_not_root in Heq.
Qed.

(** The ascent sees the file system only through the names that exist. *)
Lemma existsSync_ext p q path :
  cwd q = cwd p → dom (files q) = dom (files p) →
  existsSync q path = existsSync p path.
Proof.
  intros Hcwd Hdom. unfold existsSync. rewrite Hcwd.
  apply bool_decide_ext. by rewrite <-!elem_of_dom, Hdom.
Qed.

Lemma findPackageJson_ext depth p q dir :
  cwd q = cwd p → PLEASURE_ROOT q = PLEASURE_ROOT p →
  dom (files q) = dom (files p) →
  findPackageJson depth q dir = findPackageJson depth p dir.
Proof.
  intros Hcwd Henv Hdom. revert dir.
  induction depth as [|depth IH]; intros dir; simpl; [done|].
  rewrite (existsSync_ext p q), Hcwd, Henv by done.
  destruct (existsSync p _); simpl; [done|].
  destruct (String.eqb _ "/"); [done|apply IH].
Qed.

Lemma findRoot_ext paths p q :
  cwd q = cwd p → PLEASURE_ROOT q = PLEASURE_ROOT p →
  stack_limit q = stack_limit p → dom (files q) = dom (files p) →
  fst (findRoot paths q) = fst (findRoot paths p).
Proof.
  intros Hcwd Henv Hlimit Hdom. unfold findRoot, reads. simpl.
  rewrite Henv, Hcwd, Hlimit.
  by rewrite (findPackageJson_ext _ p q).
Qed.

Lemma findRoot_state paths p : snd (findRoot paths p) = p.
Proof. done. Qed.

Lemma findRoot_eq paths p : findRoot paths p = (fst (findRoot paths p), p).
Proof. done. Qed.

Lemma findConfig_eq p : findConfig p = (fst (findConfig p), p).
Proof. done. Qed.

(** * The loader and the steps of [getConfig] *)

Lemma getConfig_steps scope mergeWith force runMiddleware p :
  getConfig scope mergeWith force runMiddleware p =
  (loadedConfig <- loadConfig force ;;
   mergeLayers loadedConfig scope mergeWith runMiddleware)%js p.
Proof.
  unfold getConfig, loadConfig, mergeLayers, mutation_layer, base_layer,
    override_layer, bind.
  destruct (findConfig p) as [[configFile|e] p1]; [|done].
  destruct force.
  - destruct (require_resolve configFile p1) as [[filename|e] p2]; [|done].
    destruct (delete_require_cache filename p2) as [[[]|e] p3]; [|done].
    by destruct (require configFile p3) as [[loadedConfig|e] p4].
  - unfold ret. by destruct (require configFile p1) as [[loadedConfig|e] p4].
Qed.

Lemma require_cached request exports p :
  request ∈ pathCache p → require_cache p !! request = Some exports →
  require request p = (Return exports, p).
Proof.
  intros Hpath Hcache. unfold require, bind, require_resolve, load.
  rewrite bool_decide_eq_true_2 by done. by rewrite Hcache.
Qed.

Lemma require_fresh request exports p :
  files p !! request = Some (Exports exports) → require_cache p !! request = None →
  require request p = (Return exports, loaded request exports p).
Proof.
  intros Hfile Hcache. unfold require, bind, require_resolve, load, loaded.
  destruct (bool_decide_reflect (request ∈ pathCache p)) as [Hin|Hout].
  - rewrite Hcache, Hfile. do 2 f_equal.
    rewrite (subseteq_union_1_L {[request]} (pathCache p)) by (by apply singleton_subseteq_l).
    by destruct p.
  - rewrite bool_decide_eq_true_2 by (by rewrite Hfile). simpl.
    by rewrite Hcache, Hfile.
Qed.

(** A load that succeeds leaves the exports in [require.cache] and the
    request in the path cache, and changes nothing else. *)
Lemma require_inv request exports p p1 :
  require request p = (Return exports, p1) →
  request ∈ pathCache p1 ∧ require_cache p1 !! request = Some exports ∧
  same_world p p1 ∧ console p1 = console p.
Proof.
  unfold require, bind, require_resolve, load, same_world.
  destruct (bool_decide_reflect (request ∈ pathCache p)) as [Hin|Hout].
  - destruct (require_cache p !! request) as [cached|] eqn:Hcache.
    { intros [= <- <-]. done. }
    destruct (files p !! request) as [[v|e]|]; intros [= <- <-]; simpl.
    by rewrite lookup_insert_eq.
  - destruct (bool_decide (is_Some (files p !! request))); [|done]. simpl.
    destruct (require_cache p !! request) as [cached|] eqn:Hcache.
    { intros [= <- <-]. simpl. split; [set_solver|done]. }
    destruct (files p !! request) as [[v|e]|]; intros [= <- <-]; simpl.
    rewrite lookup_insert_eq. split; [set_solver|done].
Qed.

Lemma loadConfig_false p :
  loadConfig false p =
  match fst (findConfig p) with
  | Return configFile => require configFile p
  | Throw e => (Throw e, p)
  end.
Proof.
  unfold loadConfig, bind. rewrite (findConfig_eq p).
  by destruct (fst (findConfig p)).
Qed.

Lemma loadConfig_true p :
  loadConfig true p =
  match fst (findConfig p) with
  | Return configFile =>
      match require_resolve configFile p with
      | (Return filename, p1) =>
          require configFile (set_require_cache (delete filename (require_cache p1)) p1)
      | (Throw e, p1) => (Throw e, p1)
      end
  | Throw e => (Throw e, p)
  end.
Proof.
  unfold loadConfig, bind. rewrite (findConfig_eq p).
  destruct (fst (findConfig p)) as [configFile|e]; [|done]. simpl.
  by destruct (require_resolve configFile p) as [[filename|e] p1].
Qed.

Lemma require_resolve_same request filename p p1 :
  require_resolve request p = (Return filename, p1) →
  filename = request ∧ request ∈ pathCache p1 ∧ require_cache p1 = require_cache p ∧
  same_world p p1 ∧ console p1 = console p.
Proof.
  unfold require_resolve, same_world.
  destruct (bool_decide_reflect (request ∈ pathCache p)).
  { by intros [= <- <-]. }
  destruct (bool_decide (is_Some (files p !! request))); [|done].
  intros [= <- <-]. simpl. split; [done|]. split; [set_solver|done].
Qed.

Lemma loadConfig_inv force loadedConfig p p1 :
  loadConfig force p = (Return loadedConfig, p1) →
  ∃ configFile, fst (findConfig p) = Return configFile ∧
    configFile ∈ pathCache p1 ∧ require_cache p1 !! configFile = Some loadedConfig ∧
    same_world p p1 ∧ console p1 = console p.
Proof.
  destruct force.
  - rewrite loadConfig_true.
    destruct (fst (findConfig p)) as [configFile|e]; [|done].
    destruct (require_resolve configFile p) as [[filename|e] p0] eqn:Hres; [|done].
    apply require_resolve_same in Hres as (-> & Hin & Hrc & Hsame & Hout).
    intros (Hin' & Hcache & Hsame' & Hout')%require_inv.
    exists configFile. split; [done|]. split; [done|]. split; [done|].
    unfold same_world in *. simpl in *. split; [|congruence].
    destruct Hsame as (? & ? & ? & ? & ?), Hsame' as (? & ? & ? & ? & ?).
    repeat split; congruence.
  - rewrite loadConfig_false.
    destruct (fst (findConfig p)) as [configFile|e]; [|done].
    intros (Hin' & Hcache & Hsame' & Hout')%require_inv.
    by exists configFile.
Qed.

Lemma loadConfig_cached configFile loadedConfig p :
  fst (findConfig p) = Return configFile →
  configFile ∈ pathCache p → require_cache p !! configFile = Some loadedConfig →
  loadConfig false p = (Return loadedConfig, p).
Proof.
  intros Hfind Hin Hcache. rewrite loadConfig_false, Hfind.
  by apply require_cached.
Qed.

(** The merge of the layers reads the registered contributions and writes
    to the console, nothing more. *)
Lemma getMiddlewareMutation_result scope p q :
  middlewares q = middlewares p →
  fst (getMiddlewareMutation scope q) = fst (getMiddlewareMutation scope p).
Proof.
  intros Hms. unfold getMiddlewareMutation. rewrite Hms.
  destruct (middlewares p !! property_key scope) as [mutations|]; [|done].
  unfold bind, lift, console_log, ret.
  by destruct (forEach_mutation mutations (VObj ∅)).
Qed.

Lemma getMiddlewareMutation_frame scope p r p1 :
  getMiddlewareMutation scope p = (r, p1) →
  same_world p p1 ∧ pathCache p1 = pathCache p ∧ require_cache p1 = require_cache p.
Proof.
  unfold getMiddlewareMutation, same_world.
  destruct (middlewares p !! property_key scope) as [mutations|].
  - unfold bind, lift, console_log, ret.
    destruct (forEach_mutation mutations (VObj ∅)); by intros [= <- <-].
  - by intros [= <- <-].
Qed.

Lemma mergeLayers_result loadedConfig scope mergeWith runMiddleware p q :
  middlewares q = middlewares p →
  fst (mergeLayers loadedConfig scope mergeWith runMiddleware q) =
  fst (mergeLayers loadedConfig scope mergeWith runMiddleware p).
Proof.
  intros Hms. unfold mergeLayers, bind, mutation_layer. destruct runMiddleware.
  - pose proof (getMiddlewareMutation_result scope p q Hms) as Hres.
    destruct (getMiddlewareMutation scope q) as [[m|e] q1],
             (getMiddlewareMutation scope p) as [[m'|e'] p1];
      simpl in Hres; by simplify_eq.
  - done.
Qed.

Lemma mergeLayers_frame loadedConfig scope mergeWith runMiddleware p r p1 :
  mergeLayers loadedConfig scope mergeWith runMiddleware p = (r, p1) →
  same_world p p1 ∧ pathCache p1 = pathCache p ∧ require_cache p1 = require_cache p.
Proof.
  unfold mergeLayers, bind, mutation_layer. destruct runMiddleware.
  - destruct (getMiddlewareMutation scope p) as [[m|e] p2] eqn:Hmut;
      apply getMiddlewareMutation_frame in Hmut; by intros [= <- <-].
  - unfold ret, lift, same_world. by intros [= <- <-].
Qed.

(** * Merging the layers *)

Lemma reduce_objects (t : gmap string Value) (layers : list (gmap string Value)) :
  ∃ r, reduce (VObj t) (VObj <$> layers) = Return (VObj r) ∧
       ∀ k, r !! k = foldl (λ acc layer, merged_entry acc (layer !! k)) (t !! k) layers.
Proof.
  revert t. induction layers as [|layer layers IH]; intros t.
  - by exists t.
  - destruct (deepmerge_val_obj t layer) as (r1 & Hr1 & Hk1).
    rewrite fmap_cons. cbn [reduce foldl].
    rewrite deepmerge_obj_obj, Hr1. cbn [rbind].
    destruct (IH r1) as (r & Hr & Hk). exists r. split; [done|].
    intros k. by rewrite Hk, Hk1.
Qed.

Lemma merged_entry_arrays acc entry :
  array_or_absent acc → array_or_absent entry →
  array_or_absent (merged_entry acc entry) ∧
  array_items (merged_entry acc entry) = (array_items acc ++ array_items entry)%list ∧
  (is_Some acc ∨ is_Some entry → is_Some (merged_entry acc entry)).
Proof.
  destruct acc as [[]|], entry as [[]|]; simpl; try done;
    rewrite ?map_clone_id, ?app_nil_r; repeat split; eauto; by intros [[? [=]]|[? [=]]].
Qed.

Lemma array_entry entry :
  array_or_absent entry → is_Some entry → entry = Some (VArr (array_items entry)).
Proof. destruct entry as [[]|]; simpl; try done; by intros _ [? [=]]. Qed.

(** * The claims *)

(** ** Arrays in the final merge *)

Example tags_override_result :
  fst (getConfig None (VObj {[ "tags" := VArr [VNum 2] ]}) false true (project tags_config))
  = Return (VObj {[ "tags" := VArr [VNum 1; VNum 2] ]}).
Proof. vm_compute. reflexivity. Qed.

(** C1, as stated, fails: with [tags: [1]] in the configuration file and
    [tags: [2]] in the caller's override, the result does not hold exactly
    the later array. *)
Lemma arrays_replaced_counterexample :
  ¬ ∃ r, fst (getConfig None (VObj {[ "tags" := VArr [VNum 2] ]}) false true
                (project tags_config)) = Return (VObj r) ∧
         r !! "tags" = Some (VArr [VNum 2]).
Proof.
  intros (r & Hr & Hk). rewrite tags_override_result in Hr.
  injection Hr as <-. by rewrite lookup_singleton_eq in Hk.
Qed.

(** C1, amended: when the layers of the final merge are objects and each of
    them holds an array at a key or does not have the key, the result holds
    at that key the concatenation of those arrays in the order of the layers
    (base, extension mutation, caller override): a later array is appended to
    an earlier one, it does not replace it. *)
Theorem getConfig_arrays_concatenate p scope mergeWith force runMiddleware
    loadedConfig p1 (b m o : gmap string Value) p2 key :
  loadConfig force p = (Return loadedConfig, p1) →
  base_layer scope loadedConfig = VObj b →
  mutation_layer runMiddleware scope p1 = (Return (VObj m), p2) →
  override_layer mergeWith = VObj o →
  array_or_absent (b !! key) → array_or_absent (m !! key) → array_or_absent (o !! key) →
  is_Some (b !! key) ∨ is_Some (m !! key) ∨ is_Some (o !! key) →
  ∃ r, getConfig scope mergeWith force runMiddleware p = (Return (VObj r), p2) ∧
       r !! key = Some (VArr (array_items (b !! key) ++ array_items (m !! key)
                                ++ array_items (o !! key))).
Proof.
  intros Hload Hbase Hmut Hover Hb Hm Ho Hsome.
  rewrite getConfig_steps. unfold bind at 1. rewrite Hload.
  unfold mergeLayers, bind, lift, deepmerge_all. rewrite Hmut, Hbase, Hover.
  destruct (reduce_objects ∅ [∅; b; m; o]) as (r & Hr & Hk).
  exists r. split; [by rewrite <-Hr|].
  rewrite Hk. cbn [foldl]. rewrite !lookup_empty. cbn [merged_entry].
  destruct (merged_entry_arrays None (b !! key) I Hb) as (Hb1 & Hb2 & Hb3).
  destruct (merged_entry_arrays _ (m !! key) Hb1 Hm) as (Hm1 & Hm2 & Hm3).
  destruct (merged_entry_arrays _ (o !! key) Hm1 Ho) as (Ho1 & Ho2 & Ho3).
  rewrite (array_entry _ Ho1).
  - by rewrite Ho2, Hm2, Hb2, app_assoc.
  - apply Ho3. destruct Hsome as [Hsome|[Hsome|Hsome]]; [left|left|by right].
    + apply Hm3. left. apply Hb3. by right.
    + apply Hm3. by right.
Qed.

Lemma getConfig_arrays_concatenate_witness :
  ∃ r, getConfig None (VObj {[ "tags" := VArr [VNum 2] ]}) false true (project tags_config)
       = (Return (VObj r),
          loaded "/home/dev/app/pleasure.config.js" tags_config (project tags_config)) ∧
       r !! "tags" = Some (VArr ([VNum 1] ++ [] ++ [VNum 2])).
Proof.
  refine (getConfig_arrays_concatenate (project tags_config) None
           (VObj {[ "tags" := VArr [VNum 2] ]}) false true tags_config
           (loaded "/home/dev/app/pleasure.config.js" tags_config (project tags_config))
           {[ "tags" := VArr [VNum 1] ]} ∅ {[ "tags" := VArr [VNum 2] ]}
           (loaded "/home/dev/app/pleasure.config.js" tags_config (project tags_config))
           "tags" _ _ _ _ _ _ _ _).
  - vm_compute. reflexivity.
  - reflexivity.
  - vm_compute. reflexivity.
  - reflexivity.
  - exact I.
  - exact I.
  - exact I.
  - left. vm_compute. eexists. reflexivity.
Defined.

(** ** The ascent without a marker file *)

(** C2: [findPackageJson] never returns [undefined], whatever the process,
    the directory and the number of call frames; and on a file system without
    any file, started from any directory, the root included, it ends in
    [RangeError].  The ascent goes from [/] to [/] again, because the test
    that should stop it compares [local], which ends in [package.json], with
    ['/']. *)
Theorem findPackageJson_no_marker_overflow depth p dir :
  findPackageJson depth p dir ≠ Return None ∧
  findPackageJson depth (set_files ∅ p) dir = Throw RangeError.
Proof.
  split; [apply findPackageJson_never_undefined|].
  apply findPackageJson_unmarked. intros path. unfold existsSync. simpl.
  apply bool_decide_eq_false_2. rewrite lookup_empty. apply is_Some_None.
Qed.

(** The same on a file system that has files, none of them a marker. *)
Example findPackageJson_from_tmp :
  findPackageJson 64
    (mkProcess "/tmp/work" None 64 {[ "/tmp/work/notes.txt" := Exports (VObj ∅) ]} ∅ ∅ ∅ [])
    (Some "/tmp/work")
  = Throw RangeError.
Proof. vm_compute. reflexivity. Qed.

(** ** A missing configuration file *)

Example stale_project_reached :
  let p1 := snd (getConfig None VUndefined false true (project api_config)) in
  stale_project = set_files (delete "/home/dev/app/pleasure.config.js" (files p1)) p1.
Proof. vm_compute. reflexivity. Qed.





(** A configuration file that is there and does not load raises its own
    error. *)
Lemma getConfig_malformed_file p configFile e scope mergeWith runMiddleware :
  fst (findConfig p) = Return configFile →
  files p !! configFile = Some (Raises e) →
  fst (getConfig scope mergeWith true runMiddleware p) = Throw e.
Proof.
  intros Hfind Hfile. rewrite getConfig_steps. unfold bind at 1.
  rewrite loadConfig_true, Hfind.
  assert (∀ q, files q = files p → require_cache q !! configFile = None →
               fst (require configFile q) = Throw e) as Hrequire.
  { intros q Hfs Hrc. unfold require, bind, require_resolve, load.
    rewrite Hfs, Hfile.
    destruct (bool_decide (configFile ∈ pathCache q)); simpl;
      by rewrite Hrc, Hfs, Hfile. }
  unfold require_resolve. rewrite Hfile.
  destruct (bool_decide (configFile ∈ pathCache p)).
  - match goal with |- context [require configFile ?q] =>
      specialize (Hrequire q eq_refl (lookup_delete_eq _ _));
      destruct (require configFile q) as [[v|e'] q'] end; simpl in *; by simplify_eq.
  - rewrite ?bool_decide_eq_true_2 by done.
    match goal with |- context [require configFile ?q] =>
      specialize (Hrequire q eq_refl (lookup_delete_eq _ _));
      destruct (require configFile q) as [[v|e'] q'] end; simpl in *; by simplify_eq.
Qed.

(** ** The cached load *)

(** C4: after a [getConfig] with [force = false] that returned [r], the same
    call returns [r] again in every later state of the process in which only
    the contents of files were rewritten: the configuration comes from
    [require.cache], the file is not read. *)
Theorem getConfig_cached_reload p scope mergeWith runMiddleware r p1 q :
  getConfig scope mergeWith false runMiddleware p = (Return r, p1) →
  contents_changed p1 q →
  fst (getConfig scope mergeWith false runMiddleware q) = Return r.
Proof.
  rewrite !getConfig_steps. unfold bind.
  destruct (loadConfig false p) as [[loadedConfig|e] p0] eqn:Hload; [|done].
  intros Hmerge (Hcwd & Henv & Hlimit & Hdom & Hpc & Hrc & Hms).
  apply loadConfig_inv in Hload
    as (configFile & Hfind & Hin & Hcache & (Hcwd0 & Henv0 & Hlimit0 & Hfs0 & Hms0) & _).
  pose proof (mergeLayers_frame _ _ _ _ _ _ _ Hmerge)
    as ((Hcwd1 & Henv1 & Hlimit1 & Hfs1 & Hms1) & Hpc1 & Hrc1).
  rewrite (loadConfig_cached configFile loadedConfig q).
  - rewrite (mergeLayers_result _ _ _ _ p0 q) by congruence. by rewrite Hmerge.
  - rewrite <-Hfind. unfold findConfig. apply findRoot_ext; congruence.
  - by rewrite Hpc, Hpc1.
  - by rewrite Hrc, Hrc1.
Qed.

Lemma getConfig_cached_reload_witness :
  fst (getConfig (Some "api") VUndefined false true (edited_project (port_config 9999)))
  = Return (VObj {[ "port" := VNum 3000; "host" := VStr "x" ]}).
Proof.
  refine (getConfig_cached_reload (project api_config) (Some "api") VUndefined true
            (VObj {[ "port" := VNum 3000; "host" := VStr "x" ]})
            (loaded "/home/dev/app/pleasure.config.js" api_config (project api_config))
            (edited_project (port_config 9999)) _ _).
  - vm_compute. reflexivity.
  - repeat split; vm_compute; reflexivity.
Defined.

(** ** The forced load *)

Lemma loadConfig_forced p configFile fresh :
  fst (findConfig p) = Return configFile →
  files p !! configFile = Some (Exports fresh) →
  loadConfig true p = (Return fresh, loaded configFile fresh p).
Proof.
  intros Hfind Hfile. rewrite loadConfig_true, Hfind.
  unfold require_resolve. rewrite Hfile.
  destruct (bool_decide_reflect (configFile ∈ pathCache p)) as [Hin|Hout].
  - rewrite (require_fresh configFile fresh).
    + f_equal. unfold loaded, set_require_cache, set_pathCache. cbn.
      by rewrite insert_delete_eq.
    + done.
    + apply lookup_delete_eq.
  - rewrite bool_decide_eq_true_2 by done.
    rewrite (require_fresh configFile fresh).
    + f_equal. unfold loaded, set_require_cache, set_pathCache. cbn.
      rewrite insert_delete_eq. f_equal. by rewrite (assoc_L (∪)), (idemp_L (∪)).
    + done.
    + apply lookup_delete_eq.
Qed.

(** C5: with [force = true] the entry of the configuration file is removed
    from [require.cache] before the file is loaded, so whatever the cache
    held, the layers are merged over what the file exports now, and that is
    what the cache holds afterwards. *)
Theorem getConfig_force_reloads p configFile fresh scope mergeWith runMiddleware :
  fst (findConfig p) = Return configFile →
  files p !! configFile = Some (Exports fresh) →
  getConfig scope mergeWith true runMiddleware p =
  mergeLayers fresh scope mergeWith runMiddleware (loaded configFile fresh p).
Proof.
  intros Hfind Hfile. rewrite getConfig_steps. unfold bind at 1.
  by rewrite (loadConfig_forced p configFile fresh).
Qed.

Lemma getConfig_force_reloads_witness :
  fst (getConfig (Some "api") VUndefined true true (edited_project (port_config 9999)))
  = Return (VObj {[ "port" := VNum 9999 ]}).
Proof.
  rewrite (getConfig_force_reloads (edited_project (port_config 9999))
             "/home/dev/app/pleasure.config.js" (port_config 9999)
             (Some "api") VUndefined true).
  - vm_compute. reflexivity.
  - vm_compute. reflexivity.
  - vm_compute. reflexivity.
Defined.

(** ** Scope, contributions and override *)

Lemma deepmerge_val_empty_l m : deepmerge_val (VObj ∅) (VObj m) = VObj m.
Proof.
  pose proof (clone_deepmerge (VObj m)) as Hclone.
  rewrite clone_id in Hclone. exact (eq_sym Hclone).
Qed.

Lemma override_layer_not_nullish mergeWith : isNullish (override_layer mergeWith) = false.
Proof.
  unfold override_layer. destruct (truthy mergeWith) eqn:Htruthy; [|done].
  by destruct mergeWith.
Qed.

Lemma deepmerge_onto_object m source :
  isNullish source = false →
  deepmerge (VObj m) source = Return (deepmerge_val (VObj m) source).
Proof.
  intros Hsource. unfold deepmerge, deepmerge_throws.
  rewrite Hsource. cbn. by rewrite andb_false_r.
Qed.

Lemma getMiddlewareMutation_unregistered scope p :
  middlewares p !! property_key scope = None →
  getMiddlewareMutation scope p = (Return (VObj ∅), p).
Proof. intros Hnone. unfold getMiddlewareMutation. by rewrite Hnone. Qed.

Lemma mutation_layer_unregistered runMiddleware scope p :
  middlewares p !! property_key scope = None →
  mutation_layer runMiddleware scope p = (Return (VObj ∅), p).
Proof.
  intros Hnone. destruct runMiddleware; [|done].
  by apply getMiddlewareMutation_unregistered.
Qed.

Lemma lodash_get_key (doc : gmap string Value) key v dflt :
  contains "." key = false → doc !! key = Some v → v ≠ VUndefined →
  lodash_get (VObj doc) key dflt = v.
Proof.
  intros Hdot Hkey Hdef. unfold lodash_get, baseGet, castPath. rewrite Hdot. cbn.
  unfold prop. cbn. rewrite Hkey. cbn. by destruct v.
Qed.

(** C6: when the configuration loaded has [api: {port: 3000, host: "x"}] and
    nothing is registered for ["api"], [getConfig("api", {port: 4000})]
    returns exactly [{host: "x", port: 4000}], with or without a forced
    load and with or without the middleware step. *)
Theorem getConfig_api_override p force runMiddleware (doc : gmap string Value) p1 :
  loadConfig force p = (Return (VObj doc), p1) →
  doc !! "api" = Some (VObj {[ "port" := VNum 3000; "host" := VStr "x" ]}) →
  middlewares p !! "api" = None →
  getConfig (Some "api") (VObj {[ "port" := VNum 4000 ]}) force runMiddleware p
  = (Return (VObj {[ "host" := VStr "x"; "port" := VNum 4000 ]}), p1).
Proof.
  intros Hload Hapi Hnone.
  rewrite getConfig_steps. unfold bind at 1. rewrite Hload.
  apply loadConfig_inv in Hload as (_ & _ & _ & _ & (_ & _ & _ & _ & Hms) & _).
  unfold mergeLayers, bind.
  rewrite mutation_layer_unregistered by (by rewrite Hms).
  unfold base_layer. cbn [nonempty String.eqb].
  rewrite (lodash_get_key doc "api" _ _ eq_refl Hapi) by done.
  unfold lift. by f_equal.
Qed.

Lemma getConfig_api_override_witness :
  getConfig (Some "api") (VObj {[ "port" := VNum 4000 ]}) false true (project api_config)
  = (Return (VObj {[ "host" := VStr "x"; "port" := VNum 4000 ]}),
     loaded "/home/dev/app/pleasure.config.js" api_config (project api_config)).
Proof.
  refine (getConfig_api_override (project api_config) false true
            {[ "api" := VObj {[ "port" := VNum 3000; "host" := VStr "x" ]} ]}
            (loaded "/home/dev/app/pleasure.config.js" api_config (project api_config))
            _ _ _).
  - vm_compute. reflexivity.
  - vm_compute. reflexivity.
  - vm_compute. reflexivity.
Defined.

(** ** Registering and composing contributions *)

Lemma extendConfig_accepts scope replacement p :
  scope ≠ "" → truthy replacement = true →
  extendConfig scope replacement p =
  (Return VUndefined,
   set_middlewares
     (<[scope := (default [] (middlewares p !! scope) ++ [replacement])%list]>
        (middlewares p)) p).
Proof.
  intros Hscope Htruthy. unfold extendConfig.
  rewrite (proj2 (String.eqb_neq scope "")) by done. rewrite Htruthy. cbn.
  unfold bind, modify, ret. f_equal.
  destruct (middlewares p !! scope) as [registered|] eqn:Hreg;
    unfold set_middlewares; cbn; f_equal;
    apply map_eq; intros k; destruct (decide (k = scope)) as [->|Hne].
  - by rewrite lookup_alter_eq, lookup_insert_eq, Hreg.
  - by rewrite lookup_alter_ne, lookup_insert_ne.
  - by rewrite lookup_alter_eq, !lookup_insert_eq.
  - by rewrite lookup_alter_ne, !lookup_insert_ne.
Qed.


(** What [getMiddlewareMutation] returns, without the console: the
    contributions registered for the scope, merged in the order of their
    registration. *)
Lemma getMiddlewareMutation_fold scope p :
  fst (getMiddlewareMutation scope p) =
  forEach_mutation (default [] (middlewares p !! property_key scope)) (VObj ∅).
Proof.
  unfold getMiddlewareMutation.
  destruct (middlewares p !! property_key scope) as [mutations|]; [|done].
  unfold bind, lift, console_log, ret. cbn.
  by destruct (forEach_mutation mutations (VObj ∅)).
Qed.





(** C8: a registration with an empty scope or with a contribution that is
    absent (or falsy in any other way) returns normally; it writes one line
    to the error console and leaves the table of contributions, like the
    rest of the process, as it was. *)
Theorem extendConfig_rejects p scope replacement :
  scope = "" ∨ truthy replacement = false →
  extendConfig scope replacement p =
  (Return VUndefined,
   set_console (console p ++ [ConsoleError "provide both a scope & replacement"])%list p) ∧
  middlewares (snd (extendConfig scope replacement p)) = middlewares p.
Proof.
  intros Hbad.
  assert (extendConfig scope replacement p =
          console_error "provide both a scope & replacement" p) as ->.
  { unfold extendConfig. destruct Hbad as [-> | ->]; [done|]. by rewrite orb_true_r. }
  done.
Qed.

Lemma extendConfig_rejects_witness :
  extendConfig "api" VUndefined (project api_config) =
  (Return VUndefined,
   set_console [ConsoleError "provide both a scope & replacement"] (project api_config)) ∧
  middlewares (snd (extendConfig "api" VUndefined (project api_config))) = ∅.
Proof.
  refine (extendConfig_rejects (project api_config) "api" VUndefined _).
  right. reflexivity.
Defined.

(** ** A scope that addresses nothing *)





(** ** The whole document and the contributions *)



(** * More on the ascent *)

Lemma path_normalize_nonempty path : path_normalize path ≠ "".
Proof.
  unfold path_normalize.
  destruct (String.eqb path ""); [done|]. cbv zeta.
  destruct (String.eqb_spec (normalizeString path (negb (startsWithSlash path))) "")
    as [_|Hn].
  - by destruct (startsWithSlash path), (endsWithSlash path).
  - destruct (endsWithSlash path), (startsWithSlash path); try done.
    by destruct (normalizeString path (negb false)).
Qed.

Lemma path_join_nonempty args : path_join args ≠ "".
Proof.
  unfold path_join. destruct (filter _ args); [done|apply path_normalize_nonempty].
Qed.

Lemma or_else_nonempty s alt : s ≠ "" → or_else (Some s) alt = s.
Proof.
  intros Hs. unfold or_else, nonempty.
  by rewrite (proj2 (String.eqb_neq s "")).
Qed.

(** One call of [findPackageJson], with the directory it looks at named. *)
Lemma findPackageJson_step depth p dir :
  findPackageJson (S depth) p dir =
  if existsSync p (marker_in (start_dir p dir))
  then Return (Some (marker_in (start_dir p dir)))
  else findPackageJson depth p (Some (path_join [start_dir p dir; "../"])).
Proof.
  cbn [findPackageJson]. fold (start_dir p dir). fold (marker_in (start_dir p dir)).
  destruct (existsSync p _); cbn [negb]; [done|].
  destruct (String.eqb_spec (marker_in (start_dir p dir)) "/") as [Heq|_]; [|done].
  by apply path_join_package_json_not_root in Heq.
Qed.

Lemma start_dir_ascent p dir :
  start_dir p (Some (path_join [dir; "../"])) = path_join [dir; "../"].
Proof. apply or_else_nonempty, path_join_nonempty. Qed.

Lemma ascent_nonempty n dir : dir ≠ "" → ascent n dir ≠ "".
Proof.
  revert dir. induction n as [|n IH]; intros dir Hdir; [done|].
  apply IH, path_join_nonempty.
Qed.

Lemma start_dir_nonempty p dir : start_dir p dir ≠ "".
Proof.
  unfold start_dir, or_else.
  destruct (nonempty dir) as [s|] eqn:Hdir; cbn.
  - unfold nonempty in Hdir. destruct dir as [d|]; [|done].
    destruct (String.eqb_spec d ""); by simplify_eq.
  - unfold path_resolve.
    destruct (resolve_loop _ _ _) as [rp []]; [done|].
    by destruct (String.eqb_spec (normalizeString rp (negb false)) "").
Qed.

Lemma or_else_ascent p n dir :
  start_dir p (Some (ascent (S n) (start_dir p dir))) = ascent (S n) (start_dir p dir).
Proof. apply or_else_nonempty, ascent_nonempty, start_dir_nonempty. Qed.

Lemma findPackageJson_climb n depth p dir :
  (∀ i, i < n → existsSync p (marker_in (ascent i (start_dir p dir))) = false) →
  findPackageJson (n + depth) p dir =
  findPackageJson depth p
    (match n with O => dir | S _ => Some (ascent n (start_dir p dir)) end).
Proof.
  revert dir. induction n as [|n IH]; intros dir Hnone; [done|].
  cbn [Nat.add]. rewrite findPackageJson_step.
  pose proof (Hnone 0 ltac:(lia)) as Hhere. cbn [ascent] in Hhere. rewrite Hhere.
  rewrite IH.
  - rewrite start_dir_ascent. by destruct n.
  - intros i Hi. rewrite start_dir_ascent. apply (Hnone (S i)). lia.
Qed.

(** X1: [findPackageJson] returns the marker of the nearest directory that
    has one, counting from the directory it starts in, when it has one call
    frame per directory on the way. *)
Theorem findPackageJson_nearest p dir n depth :
  (∀ i, i < n → existsSync p (marker_in (ascent i (start_dir p dir))) = false) →
  existsSync p (marker_in (ascent n (start_dir p dir))) = true →
  n < depth →
  findPackageJson depth p dir = Return (Some (marker_in (ascent n (start_dir p dir)))).
Proof.
  intros Hnone Hhere Hdepth.
  replace depth with (n + S (depth - S n)) by lia.
  rewrite findPackageJson_climb by done. rewrite findPackageJson_step.
  destruct n as [|n]; [cbn [ascent] in Hhere; by rewrite Hhere|].
  rewrite or_else_ascent. by rewrite Hhere.
Qed.


Lemma append_assoc_string (a b c : string) : (a ++ b) ++ c = a ++ (b ++ c).
Proof.
  induction a as [|ch a IH]; [done|].
  rewrite !append_cons. by rewrite IH.
Qed.

Lemma concat_last_suffix sep (segs : list string) (seg : string) :
  ∃ pre, String.concat sep (segs ++ [seg]) = pre ++ seg.
Proof.
  induction segs as [|x segs [pre IH]]; [by exists ""|].
  cbn [app String.concat]. destruct (segs ++ [seg])%list eqn:Hsegs.
  { by destruct segs. }
  rewrite IH. exists (x ++ sep ++ pre).
  by rewrite !append_assoc_string.
Qed.

Lemma endsWithSlash_package_json dir : endsWithSlash (dir ++ "/package.json") = false.
Proof.
  induction dir as [|c dir IH]; [done|].
  rewrite append_cons. cbn [endsWithSlash]. rewrite IH.
  destruct (dir ++ "/package.json") eqn:Hrest; [|done].
  apply (f_equal String.length) in Hrest. rewrite length_append in Hrest.
  cbn in Hrest. lia.
Qed.

(** The marker file of a directory is named [package.json]. *)
Lemma marker_in_suffix dir : ∃ pre, marker_in dir = pre ++ "package.json".
Proof.
  unfold marker_in, path_join. cbn [filter list_filter].
  destruct (decide (dir ≠ "")) as [Hdir|Hdir].
  - cbn [filter list_filter]. rewrite decide_True by done.
    change (String.concat "/" [dir; "package.json"]) with (dir ++ "/package.json").
    pose proof (normalizeString_package_json dir
                  (negb (startsWithSlash (dir ++ "/package.json")))) as Hlen.
    unfold path_normalize.
    destruct (String.eqb_spec (dir ++ "/package.json") "") as [Hempty|_].
    { apply (f_equal String.length) in Hempty. rewrite length_append in Hempty.
      cbn in Hempty. lia. }
    cbv zeta.
    destruct (String.eqb_spec
                (normalizeString (dir ++ "/package.json")
                   (negb (startsWithSlash (dir ++ "/package.json")))) "") as [Hn|_].
    { rewrite Hn in Hlen. cbn in Hlen. lia. }
    rewrite endsWithSlash_package_json.
    assert (∃ pre, normalizeString (dir ++ "/package.json")
                     (negb (startsWithSlash (dir ++ "/package.json")))
                   = pre ++ "package.json") as [pre ->].
    { unfold normalizeString, normalize_segments.
      rewrite (split_at_append "/" dir "package.json"), fold_left_app.
      change (split_at "/" "package.json") with ["package.json"].
      cbn [fold_left]. unfold normalize_step at 1.
      cbn [String.eqb Ascii.eqb Bool.eqb orb rev].
      apply concat_last_suffix. }
    destruct (startsWithSlash _); [|by exists pre].
    exists ("/" ++ pre). by rewrite append_assoc_string.
  - apply dec_stable in Hdir as ->. by exists "".
Qed.


(** Where a returned path comes from: some step of the ascent, and the file
    is there. *)
Lemma findPackageJson_ascent depth p dir local :
  findPackageJson depth p dir = Return (Some local) →
  existsSync p local = true ∧ ∃ n, local = marker_in (ascent n (start_dir p dir)).
Proof.
  revert dir. induction depth as [|depth IH]; intros dir; [done|].
  rewrite findPackageJson_step.
  destruct (existsSync p (marker_in (start_dir p dir))) eqn:Hhere.
  - intros [= <-]. split; [done|]. by exists 0.
  - intros (Hexists & n & Hlocal)%IH. rewrite start_dir_ascent in Hlocal.
    split; [done|]. by exists (S n).
Qed.

(** X2: a path [findPackageJson] returns is the marker of the nearest
    directory that has one: the file exists, no directory below it on the way
    has a marker, and its name ends in [package.json]. *)
Theorem findPackageJson_sound depth p dir local :
  findPackageJson depth p dir = Return (Some local) →
  existsSync p local = true ∧
  (∃ pre, local = pre ++ "package.json") ∧
  ∃ n, n < depth ∧ local = marker_in (ascent n (start_dir p dir)) ∧
       ∀ i, i < n → existsSync p (marker_in (ascent i (start_dir p dir))) = false.
Proof.
  revert dir. induction depth as [|depth IH]; intros dir; [done|].
  rewrite findPackageJson_step.
  destruct (existsSync p (marker_in (start_dir p dir))) eqn:Hhere.
  - intros [= <-]. split; [done|]. split; [apply marker_in_suffix|].
    exists 0. split; [lia|]. split; [done|]. intros i Hi. lia.
  - intros (Hexists & Hsuffix & n & Hn & Hlocal & Hnone)%IH.
    rewrite start_dir_ascent in Hlocal, Hnone.
    split; [done|]. split; [done|].
    exists (S n). split; [lia|]. split; [done|].
    intros [|i] Hi; [done|]. apply Hnone. lia.
Qed.

Lemma findPackageJson_sound_witness :
  existsSync (project api_config) "/home/dev/app/package.json" = true ∧
  (∃ pre, "/home/dev/app/package.json" = pre ++ "package.json") ∧
  ∃ n, n < 64 ∧
       "/home/dev/app/package.json"
       = marker_in (ascent n (start_dir (project api_config) None)) ∧
       ∀ i, i < n →
            existsSync (project api_config)
              (marker_in (ascent i (start_dir (project api_config) None))) = false.
Proof.
  refine (findPackageJson_sound 64 (project api_config) None
            "/home/dev/app/package.json" _).
  vm_compute. reflexivity.
Defined.

Lemma findPackageJson_nearest_witness :
  findPackageJson 64 (project api_config) None = Return (Some "/home/dev/app/package.json").
Proof.
  refine (findPackageJson_nearest (project api_config) None 1 64 _ _ _).
  - intros i Hi. assert (i = 0) as -> by lia. vm_compute. reflexivity.
  - vm_compute. reflexivity.
  - lia.
Defined.

(** X3: a result of the ascent does not depend on the call frames that were
    left over: with more of them the same path is returned. *)
Theorem findPackageJson_stack_independent depth depth' p dir found :
  findPackageJson depth p dir = Return found → (depth ≤ depth')%nat →
  findPackageJson depth' p dir = Return found.
Proof.
  revert depth' dir. induction depth as [|depth IH]; intros depth' dir; [done|].
  intros Hfound Hle. destruct depth' as [|depth']; [lia|].
  rewrite findPackageJson_step in *.
  destruct (existsSync p _); [done|]. apply IH; [done|lia].
Qed.

Lemma findPackageJson_stack_independent_witness :
  findPackageJson 1000 (project api_config) None
  = Return (Some "/home/dev/app/package.json").
Proof.
  refine (findPackageJson_stack_independent 2 1000 (project api_config) None
            (Some "/home/dev/app/package.json") _ _).
  - vm_compute. reflexivity.
  - lia.
Defined.

(** * The root *)



(** * More on [getConfig] *)

Lemma same_world_refl p : same_world p p.
Proof. done. Qed.

Lemma same_world_trans p q r : same_world p q → same_world q r → same_world p r.
Proof.
  unfold same_world. intros (? & ? & ? & ? & ?) (? & ? & ? & ? & ?).
  repeat split; congruence.
Qed.

Lemma require_resolve_frame request r p p1 :
  require_resolve request p = (r, p1) →
  same_world p p1 ∧ console p1 = console p ∧ require_cache p1 = require_cache p.
Proof.
  unfold require_resolve.
  destruct (bool_decide (request ∈ pathCache p)); [by intros [= <- <-]|].
  destruct (bool_decide (is_Some (files p !! request))); by intros [= <- <-].
Qed.

Lemma load_frame filename r p p1 :
  load filename p = (r, p1) → same_world p p1 ∧ console p1 = console p.
Proof.
  unfold load.
  destruct (require_cache p !! filename); [by intros [= <- <-]|].
  destruct (files p !! filename) as [[v|e]|]; by intros [= <- <-].
Qed.

Lemma require_frame request r p p1 :
  require request p = (r, p1) → same_world p p1 ∧ console p1 = console p.
Proof.
  unfold require, bind.
  destruct (require_resolve request p) as [[filename|e] p0] eqn:Hres;
    apply require_resolve_frame in Hres as (Hsame & Hout & _).
  - intros [Hsame' Hout']%load_frame.
    split; [by eapply same_world_trans|congruence].
  - by intros [= <- <-].
Qed.

Lemma loadConfig_frame force r p p1 :
  loadConfig force p = (r, p1) → same_world p p1 ∧ console p1 = console p.
Proof.
  destruct force.
  - rewrite loadConfig_true.
    destruct (fst (findConfig p)) as [configFile|e]; [|by intros [= <- <-]].
    destruct (require_resolve configFile p) as [[filename|e] p0] eqn:Hres;
      apply require_resolve_frame in Hres as (Hsame & Hout & _).
    + intros [Hsame' Hout']%require_frame. cbn in Hsame', Hout'.
      split; [|congruence].
      eapply same_world_trans; [exact Hsame|]. exact Hsame'.
    + by intros [= <- <-].
  - rewrite loadConfig_false.
    destruct (fst (findConfig p)) as [configFile|e]; [|by intros [= <- <-]].
    apply require_frame.
Qed.






Lemma merged_entry_leaf tv v :
  isMergeableObject v = false → merged_entry tv (Some v) = Some v.
Proof. intros Hleaf. cbn. by rewrite Hleaf. Qed.

(** X7: the precedence of the layers.  When base, extension mutation and
    override are objects, a key of the result is the deep merge of the three
    entries in that order; so a value of the override that is not mergeable
    wins over both other layers, one of the mutation wins over the base when
    the override does not have the key, and a key only the base has keeps
    its value. *)
Theorem getConfig_precedence p scope mergeWith force runMiddleware
    loadedConfig p1 (b m o : gmap string Value) p2 :
  loadConfig force p = (Return loadedConfig, p1) →
  base_layer scope loadedConfig = VObj b →
  mutation_layer runMiddleware scope p1 = (Return (VObj m), p2) →
  override_layer mergeWith = VObj o →
  ∃ r, getConfig scope mergeWith force runMiddleware p = (Return (VObj r), p2) ∧
       (∀ k, r !! k = merged_entry (merged_entry (b !! k) (m !! k)) (o !! k)) ∧
       (∀ k v, o !! k = Some v → isMergeableObject v = false → r !! k = Some v) ∧
       (∀ k v, o !! k = None → m !! k = Some v → isMergeableObject v = false →
               r !! k = Some v) ∧
       (∀ k, o !! k = None → m !! k = None → r !! k = b !! k).
Proof.
  intros Hload Hbase Hmut Hover.
  rewrite getConfig_steps. unfold bind at 1. rewrite Hload.
  unfold mergeLayers, bind, lift, deepmerge_all. rewrite Hmut, Hbase, Hover.
  destruct (reduce_objects ∅ [∅; b; m; o]) as (r & Hr & Hk).
  exists r. split; [by rewrite <-Hr|].
  assert (∀ k, r !! k = merged_entry (merged_entry (b !! k) (m !! k)) (o !! k))
    as Hkey.
  { intros k. rewrite Hk. cbn [foldl]. rewrite !lookup_empty.
    assert (merged_entry (merged_entry None None) (b !! k) = b !! k) as ->; [|done].
    destruct (b !! k) as [s|]; [|done]. cbn. by rewrite andb_false_r. }
  split; [done|]. split; [|split].
  - intros k v Ho Hleaf. by rewrite Hkey, Ho, merged_entry_leaf.
  - intros k v Ho Hm Hleaf. by rewrite Hkey, Ho, Hm, merged_entry_leaf.
  - intros k Ho Hm. by rewrite Hkey, Ho, Hm.
Qed.

Lemma getConfig_precedence_witness :
  ∃ r, getConfig (Some "api") (VObj {[ "host" := VStr "y" ]}) false true extended_project
       = (Return (VObj r),
          set_console
            [ConsoleLog (VObj {[ "middlewareMutation" := VObj {[ "port" := VNum 4000 ]} ]})]
            (loaded "/home/dev/app/pleasure.config.js" api_config extended_project)) ∧
       r !! "host" = Some (VStr "y") ∧ r !! "port" = Some (VNum 4000).
Proof.
  destruct (getConfig_precedence extended_project (Some "api")
              (VObj {[ "host" := VStr "y" ]}) false true api_config
              (loaded "/home/dev/app/pleasure.config.js" api_config extended_project)
              {[ "port" := VNum 3000; "host" := VStr "x" ]}
              {[ "port" := VNum 4000 ]} {[ "host" := VStr "y" ]}
              (set_console
                 [ConsoleLog (VObj {[ "middlewareMutation" := VObj {[ "port" := VNum 4000 ]} ]})]
                 (loaded "/home/dev/app/pleasure.config.js" api_config extended_project)))
    as (r & Hr & _ & Hover & Hmut & _).
  - vm_compute. reflexivity.
  - vm_compute. reflexivity.
  - vm_compute. reflexivity.
  - reflexivity.
  - exists r. split; [exact Hr|]. split.
    + apply Hover; vm_compute; reflexivity.
    + apply Hmut; vm_compute; reflexivity.
Defined.

(** ** The registry and the middleware switch *)

Lemma findConfig_set_middlewares ms p :
  fst (findConfig (set_middlewares ms p)) = fst (findConfig p).
Proof. unfold findConfig. by apply findRoot_ext. Qed.

Lemma require_set_middlewares request ms p :
  require request (set_middlewares ms p) =
  (fst (require request p), set_middlewares ms (snd (require request p))).
Proof.
  unfold require, bind, require_resolve, load. cbn.
  destruct (bool_decide (request ∈ pathCache p)); cbn.
  - destruct (require_cache p !! request); [done|].
    by destruct (files p !! request) as [[v|e]|].
  - destruct (bool_decide (is_Some (files p !! request))); cbn; [|done].
    destruct (require_cache p !! request); [done|].
    by destruct (files p !! request) as [[v|e]|].
Qed.

Lemma loadConfig_set_middlewares force ms p :
  loadConfig force (set_middlewares ms p) =
  (fst (loadConfig force p), set_middlewares ms (snd (loadConfig force p))).
Proof.
  destruct force.
  - rewrite !loadConfig_true, findConfig_set_middlewares.
    destruct (fst (findConfig p)) as [configFile|e]; [|done].
    unfold require_resolve. cbn.
    destruct (bool_decide (configFile ∈ pathCache p)); cbn.
    + exact (require_set_middlewares configFile ms
               (set_require_cache (delete configFile (require_cache p)) p)).
    + destruct (bool_decide (is_Some (files p !! configFile))); cbn; [|done].
      exact (require_set_middlewares configFile ms
               (set_require_cache (delete configFile (require_cache p))
                  (set_pathCache ({[configFile]} ∪ pathCache p) p))).
  - rewrite !loadConfig_false, findConfig_set_middlewares.
    destruct (fst (findConfig p)) as [configFile|e]; [|done].
    apply require_set_middlewares.
Qed.

(** X8: with [runMiddleware = false] the result of [getConfig] does not
    depend on what is registered: it is the same for every table of
    contributions. *)
Theorem getConfig_ignores_registry scope mergeWith force ms p :
  fst (getConfig scope mergeWith force false (set_middlewares ms p)) =
  fst (getConfig scope mergeWith force false p).
Proof.
  rewrite !getConfig_steps. unfold bind.
  rewrite loadConfig_set_middlewares.
  by destruct (loadConfig force p) as [[loadedConfig|e] p1].
Qed.

Lemma forEach_mutation_poisoned mutations acc :
  VFun None ∈ mutations → ∃ e, forEach_mutation mutations acc = Throw e.
Proof.
  revert acc. induction mutations as [|mutation rest IH]; intros acc Hin.
  { by apply elem_of_nil in Hin. }
  cbn [forEach_mutation].
  destruct (apply_mutation acc mutation) as [acc'|e] eqn:Hstep; [|by exists e].
  apply elem_of_cons in Hin as [<-|Hin]; [done|]. by apply IH.
Qed.

(** X9: a contribution that throws when it is called is accepted by
    [extendConfig] like any function, and from then on every [getConfig] for
    its scope that runs the middleware step throws, whatever else is
    registered and whatever the configuration file holds. *)
Theorem getConfig_throwing_contribution p scope mergeWith force loadedConfig p1 mutations :
  loadConfig force p = (Return loadedConfig, p1) →
  middlewares p !! property_key scope = Some mutations →
  VFun None ∈ mutations →
  ∃ e, fst (getConfig scope mergeWith force true p) = Throw e.
Proof.
  intros Hload Hreg Hin.
  rewrite getConfig_steps. unfold bind at 1. rewrite Hload.
  apply loadConfig_frame in Hload as [(_ & _ & _ & _ & Hms) _].
  destruct (forEach_mutation_poisoned mutations (VObj ∅) Hin) as [e He].
  exists e. unfold mergeLayers, bind, mutation_layer.
  pose proof (getMiddlewareMutation_fold scope p1) as Hfold.
  rewrite Hms, Hreg in Hfold.
  change (default [] (Some mutations)) with mutations in Hfold. rewrite He in Hfold.
  destruct (getMiddlewareMutation scope p1) as [[m|e'] p2]; cbn in *; by simplify_eq.
Qed.

Lemma getConfig_throwing_contribution_witness :
  extendConfig "api" (VFun None) (project api_config) = (Return VUndefined, poisoned_project) ∧
  ∃ e, fst (getConfig (Some "api") VUndefined false true poisoned_project) = Throw e.
Proof.
  split; [vm_compute; reflexivity|].
  refine (getConfig_throwing_contribution poisoned_project (Some "api") VUndefined false
            api_config
            (loaded "/home/dev/app/pleasure.config.js" api_config poisoned_project)
            [VFun None] _ _ _).
  - vm_compute. reflexivity.
  - vm_compute. reflexivity.
  - apply list_elem_of_singleton. reflexivity.
Defined.

(** ** Forced and cached loads together *)

Lemma getConfig_served_from_cache p scope mergeWith force runMiddleware r p1 q :
  getConfig scope mergeWith force runMiddleware p = (Return r, p1) →
  contents_changed p1 q →
  fst (getConfig scope mergeWith false runMiddleware q) = Return r.
Proof.
  rewrite !getConfig_steps. unfold bind.
  destruct (loadConfig force p) as [[loadedConfig|e] p0] eqn:Hload; [|done].
  intros Hmerge (Hcwd & Henv & Hlimit & Hdom & Hpc & Hrc & Hms).
  apply loadConfig_inv in Hload
    as (configFile & Hfind & Hin & Hcache & (Hcwd0 & Henv0 & Hlimit0 & Hfs0 & Hms0) & _).
  pose proof (mergeLayers_frame _ _ _ _ _ _ _ Hmerge)
    as ((Hcwd1 & Henv1 & Hlimit1 & Hfs1 & Hms1) & Hpc1 & Hrc1).
  rewrite (loadConfig_cached configFile loadedConfig q).
  - rewrite (mergeLayers_result _ _ _ _ p0 q) by congruence. by rewrite Hmerge.
  - rewrite <-Hfind. unfold findConfig. apply findRoot_ext; congruence.
  - by rewrite Hpc, Hpc1.
  - by rewrite Hrc, Hrc1.
Qed.

(** X10: a forced load fills the cache: after a [getConfig] with
    [force = true] returned, the same call with [force = false] returns the
    same result, also when the file was rewritten in between. *)
Theorem getConfig_force_then_cached p scope mergeWith runMiddleware r p1 q :
  getConfig scope mergeWith true runMiddleware p = (Return r, p1) →
  contents_changed p1 q →
  fst (getConfig scope mergeWith false runMiddleware q) = Return r.
Proof. apply getConfig_served_from_cache. Qed.

Lemma getConfig_force_then_cached_witness :
  fst (getConfig (Some "api") VUndefined false true
         (set_files {[ "/home/dev/app/package.json" := Exports (VObj ∅);
                       "/home/dev/app/pleasure.config.js" := Exports api_config ]}
            (loaded "/home/dev/app/pleasure.config.js" (port_config 9999)
               (edited_project (port_config 9999)))))
  = Return (VObj {[ "port" := VNum 9999 ]}).
Proof.
  refine (getConfig_force_then_cached (edited_project (port_config 9999)) (Some "api")
            VUndefined true (VObj {[ "port" := VNum 9999 ]})
            (loaded "/home/dev/app/pleasure.config.js" (port_config 9999)
               (edited_project (port_config 9999)))
            _ _ _).
  - vm_compute. reflexivity.
  - repeat split; vm_compute; reflexivity.
Defined.

(** ** Documents that are not objects *)

(** X11: when the configuration file exports [null] or [undefined], a
    [getConfig] without scope throws the [TypeError] of [Object.keys], once
    the middleware step is through. *)
Theorem getConfig_null_document p mergeWith force runMiddleware loadedConfig p1 mutation p2 :
  loadConfig force p = (Return loadedConfig, p1) →
  isNullish loadedConfig = true →
  mutation_layer runMiddleware None p1 = (Return mutation, p2) →
  getConfig None mergeWith force runMiddleware p
  = (Throw (TypeError "Cannot convert undefined or null to object"), p2).
Proof.
  intros Hload Hnull Hmut.
  rewrite getConfig_steps. unfold bind at 1. rewrite Hload.
  unfold mergeLayers, bind, lift, deepmerge_all, base_layer. rewrite Hmut.
  cbn [nonempty reduce]. rewrite deepmerge_obj_obj, deepmerge_val_empty_l.
  cbn [rbind]. by destruct loadedConfig.
Qed.

Lemma getConfig_null_document_witness :
  getConfig None VUndefined false true (project VNull)
  = (Throw (TypeError "Cannot convert undefined or null to object"),
     loaded "/home/dev/app/pleasure.config.js" VNull (project VNull)).
Proof.
  refine (getConfig_null_document (project VNull) VUndefined false true VNull
            (loaded "/home/dev/app/pleasure.config.js" VNull (project VNull))
            (VObj ∅)
            (loaded "/home/dev/app/pleasure.config.js" VNull (project VNull)) _ _ _).
  - vm_compute. reflexivity.
  - reflexivity.
  - vm_compute. reflexivity.
Defined.

(** X12: when the configuration file exports an array, a [getConfig] without
    scope drops it: the result is the merge of the extension mutation and the
    override, as for a document that has nothing. *)
Theorem getConfig_array_document p mergeWith force runMiddleware xs p1
    (m : gmap string Value) p2 :
  loadConfig force p = (Return (VArr xs), p1) →
  mutation_layer runMiddleware None p1 = (Return (VObj m), p2) →
  getConfig None mergeWith force runMiddleware p
  = (Return (deepmerge_val (VObj m) (override_layer mergeWith)), p2).
Proof.
  intros Hload Hmut.
  rewrite getConfig_steps. unfold bind at 1. rewrite Hload.
  unfold mergeLayers, bind, lift, deepmerge_all, base_layer. rewrite Hmut.
  cbn [nonempty reduce]. rewrite deepmerge_obj_obj, deepmerge_val_empty_l.
  cbn [rbind].
  change (deepmerge (VObj ∅) (VArr xs)) with (Return (VArr (map clone xs))).
  cbn [rbind].
  change (deepmerge (VArr (map clone xs)) (VObj m)) with (Return (VObj (clone <$> m))).
  cbn [rbind]. rewrite fmap_clone_id.
  by rewrite deepmerge_onto_object by apply override_layer_not_nullish.
Qed.

Lemma getConfig_array_document_witness :
  getConfig None (VObj {[ "port" := VNum 1 ]}) false true (project (VArr [VNum 7]))
  = (Return (deepmerge_val (VObj ∅) (override_layer (VObj {[ "port" := VNum 1 ]}))),
     loaded "/home/dev/app/pleasure.config.js" (VArr [VNum 7]) (project (VArr [VNum 7]))).
Proof.
  refine (getConfig_array_document (project (VArr [VNum 7])) (VObj {[ "port" := VNum 1 ]})
            false true [VNum 7]
            (loaded "/home/dev/app/pleasure.config.js" (VArr [VNum 7])
               (project (VArr [VNum 7])))
            ∅
            (loaded "/home/dev/app/pleasure.config.js" (VArr [VNum 7])
               (project (VArr [VNum 7]))) _ _).
  - vm_compute. reflexivity.
  - vm_compute. reflexivity.
Defined.

(** * Absolute paths in normal form *)

Lemma split_at_no_sep sep s : Forall (λ seg, contains sep seg = false) (split_at sep s).
Proof.
  induction s as [|c s IH]; cbn; [by constructor|].
  destruct (Ascii.eqb c sep) eqn:Hc; [by constructor|].
  destruct (split_at sep s) as [|seg segs]; [by repeat constructor; cbn; rewrite Hc|].
  inversion IH as [|? ? Hseg Hsegs]; subst. constructor; [|done].
  cbn. by rewrite Hc.
Qed.

Lemma split_at_whole sep s : contains sep s = false → split_at sep s = [s].
Proof.
  induction s as [|c s IH]; cbn; [done|].
  destruct (Ascii.eqb c sep); [done|]. cbn. intros Hs. by rewrite IH.
Qed.

Lemma string_concat_cons sep x y (l : list string) :
  String.concat sep (x :: y :: l) = x ++ sep ++ String.concat sep (y :: l).
Proof. done. Qed.

Lemma split_at_concat (segs : list string) :
  segs ≠ [] → Forall (λ seg, contains "/" seg = false) segs →
  split_at "/" (String.concat "/" segs) = segs.
Proof.
  induction segs as [|x [|y l] IH]; intros Hne Hsegs; [done| |].
  - inversion Hsegs; subst. by apply split_at_whole.
  - inversion Hsegs as [|? ? Hx Hrest]; subst.
    rewrite string_concat_cons.
    change ("/" ++ String.concat "/" (y :: l)) with (String "/" (String.concat "/" (y :: l))).
    rewrite split_at_append, IH by done. by rewrite split_at_whole.
Qed.

Lemma normalize_step_plain allowAboveRoot res seg :
  plain seg → normalize_step allowAboveRoot res seg = seg :: res.
Proof.
  intros (Hempty & Hdot & Hdots & _). unfold normalize_step.
  by rewrite (proj2 (String.eqb_neq seg "")), (proj2 (String.eqb_neq seg ".")),
    (proj2 (String.eqb_neq seg "..")).
Qed.

Lemma fold_normalize_plain allowAboveRoot segs res :
  Forall plain segs →
  fold_left (normalize_step allowAboveRoot) segs res = (rev segs ++ res)%list.
Proof.
  revert res. induction segs as [|seg segs IH]; intros res Hsegs; [done|].
  inversion Hsegs; subst. cbn [fold_left rev].
  rewrite normalize_step_plain, IH by done. by rewrite <-app_assoc.
Qed.

(** What [normalizeString] keeps of an absolute path is plain. *)
Lemma normalize_step_keeps_plain res seg :
  Forall plain res → contains "/" seg = false →
  Forall plain (normalize_step false res seg).
Proof.
  intros Hres Hseg. unfold normalize_step.
  destruct (String.eqb_spec seg "") as [|Hempty]; [done|].
  destruct (String.eqb_spec seg ".") as [|Hdot]; [done|]. cbn [orb].
  destruct (String.eqb_spec seg "..") as [|Hdots].
  - destruct res as [|last kept]; [done|].
    destruct (String.eqb last ".."); [done|]. by inversion Hres.
  - by constructor.
Qed.

Lemma normalize_segments_plain path : Forall plain (normalize_segments path false).
Proof.
  unfold normalize_segments.
  assert (∀ segs res, Forall (λ seg, contains "/" seg = false) segs → Forall plain res →
                      Forall plain (fold_left (normalize_step false) segs res)) as Hfold.
  { induction segs as [|seg segs IH]; intros res Hsegs Hres; [done|].
    inversion Hsegs; subst. cbn [fold_left].
    apply IH; [done|]. by apply normalize_step_keeps_plain. }
  apply Hfold; [apply split_at_no_sep|constructor].
Qed.

Lemma plain_no_slash segs :
  Forall plain segs → Forall (λ seg, contains "/" seg = false) segs.
Proof. intros Hsegs. eapply Forall_impl; [exact Hsegs|]. by intros seg (_ & _ & _ & ?). Qed.

(** Normalizing an absolute path in normal form, with or without a slash at
    its end, gives back its segments. *)
Lemma normalize_segments_absolute segs tail :
  Forall plain segs → tail = "" ∨ tail = "/" →
  normalize_segments (absolute segs ++ tail) false = rev segs.
Proof.
  intros Hsegs Htail. unfold normalize_segments, absolute.
  assert (split_at "/" (("/" ++ String.concat "/" segs) ++ tail)
          = "" :: (match segs with [] => [""] | _ => segs end
                   ++ match tail with "" => [] | _ => [""] end)%list) as ->.
  { change ("/" ++ String.concat "/" segs) with (String "/" (String.concat "/" segs)).
    rewrite append_cons. cbn [split_at]. rewrite Ascii.eqb_refl. f_equal.
    assert (split_at "/" (String.concat "/" segs)
            = match segs with [] => [""] | _ => segs end) as Hsplit.
    { destruct segs as [|seg segs']; [done|].
      apply split_at_concat; [done|by apply plain_no_slash]. }
    destruct Htail as [-> | ->].
    - replace (String.concat "/" segs ++ "") with (String.concat "/" segs).
      + by rewrite Hsplit, app_nil_r.
      + clear. induction (String.concat "/" segs) as [|c s IH]; [done|].
        by rewrite append_cons, <-IH.
    - change "/" with (String "/" "") at 2.
      by rewrite split_at_append, Hsplit. }
  cbn [fold_left]. unfold normalize_step at 2. cbn [String.eqb orb].
  rewrite fold_left_app.
  assert (fold_left (normalize_step false)
            (match segs with [] => [""] | _ => segs end) [] = rev segs) as ->.
  { destruct segs as [|seg segs']; [done|].
    by rewrite fold_normalize_plain, app_nil_r. }
  by destruct Htail as [-> | ->].
Qed.

Lemma resolve_loop_absolute cwd args acc rp resolvedAbsolute :
  startsWithSlash cwd = true →
  resolve_loop cwd args acc = (rp, resolvedAbsolute) → resolvedAbsolute = true.
Proof.
  intros Hcwd. revert acc. induction args as [|path rest IH]; intros acc; cbn.
  - destruct (String.eqb_spec cwd "") as [->|_]; [done|].
    rewrite Hcwd. by intros [= _ <-].
  - destruct (String.eqb path ""); [apply IH|].
    destruct (startsWithSlash path); [by intros [= _ <-]|apply IH].
Qed.

(** In a process whose working directory is absolute, [path.resolve]
    returns an absolute path in normal form. *)
Lemma path_resolve_normal cwd args :
  startsWithSlash cwd = true → normal_absolute (path_resolve cwd args).
Proof.
  intros Hcwd. unfold path_resolve.
  destruct (resolve_loop cwd (rev args) "") as [rp abs] eqn:Hloop.
  apply resolve_loop_absolute in Hloop as ->; [|done].
  exists (rev (normalize_segments rp false)). split; [|done].
  apply Forall_rev, normalize_segments_plain.
Qed.

(** [path.resolve] of one absolute path in normal form is that path. *)
Lemma path_resolve_fixed cwd path :
  normal_absolute path → path_resolve cwd [path] = path.
Proof.
  intros (segs & Hsegs & ->). unfold path_resolve.
  change (resolve_loop cwd (rev [absolute segs]) "") with (absolute segs ++ "/", true).
  cbv beta iota zeta. cbn [negb]. unfold normalizeString.
  rewrite normalize_segments_absolute by auto. by rewrite rev_involutive.
Qed.

Lemma append_empty_r (s : string) : s ++ "" = s.
Proof. induction s as [|c s IH]; [done|]. by rewrite append_cons, IH. Qed.

Lemma normalize_segments_snoc path seg :
  normalize_segments (path ++ String "/" seg) false =
  fold_left (normalize_step false) (split_at "/" seg) (normalize_segments path false).
Proof. unfold normalize_segments. by rewrite split_at_append, fold_left_app. Qed.

Lemma plain_package_json : plain "package.json".
Proof. done. Qed.

Lemma string_concat_nonempty (segs : list string) seg :
  seg ≠ "" → String.concat "/" (segs ++ [seg]) ≠ "".
Proof.
  intros Hseg Heq. pose proof (length_concat_last "/" segs seg) as Hlen.
  rewrite Heq in Hlen. destruct seg; [done|]. cbn in Hlen. lia.
Qed.

Lemma startsWithSlash_append s t :
  startsWithSlash s = true → startsWithSlash (s ++ t) = true.
Proof. by destruct s. Qed.

Lemma endsWithSlash_append s c t :
  endsWithSlash (s ++ String c t) = endsWithSlash (String c t).
Proof.
  induction s as [|c' s IH]; [done|].
  rewrite append_cons. cbn [endsWithSlash].
  destruct (s ++ String c t) eqn:Hrest; [by destruct s|]. exact IH.
Qed.

(** Joining a name to a directory of the ascent. *)
Lemma path_join_dirlike segs tail name :
  Forall plain segs → tail = "" ∨ tail = "/" → plain name →
  path_join [absolute segs ++ tail; name] = absolute (segs ++ [name]).
Proof.
  intros Hsegs Htail Hname. unfold path_join.
  assert (filter (λ arg : string, arg ≠ "") [absolute segs ++ tail; name]
          = [absolute segs ++ tail; name]) as ->.
  { cbn [filter list_filter]. rewrite decide_True by (by unfold absolute).
    cbn [filter list_filter]. rewrite decide_True by apply Hname. done. }
  change (String.concat "/" [absolute segs ++ tail; name])
    with ((absolute segs ++ tail) ++ String "/" name).
  unfold path_normalize.
  change (String.eqb ((absolute segs ++ tail) ++ String "/" name) "") with false.
  cbv beta iota zeta.
  change (startsWithSlash ((absolute segs ++ tail) ++ String "/" name)) with true.
  cbn [negb]. unfold normalizeString.
  rewrite normalize_segments_snoc, normalize_segments_absolute by done.
  rewrite split_at_whole by apply Hname. cbn [fold_left].
  rewrite normalize_step_plain by done. cbn [rev]. rewrite rev_involutive.
  rewrite (proj2 (String.eqb_neq _ "")) by (apply string_concat_nonempty, Hname).
  rewrite endsWithSlash_append.
  destruct Hname as (Hne & _ & _ & Hslash).
  assert (endsWithSlash (String "/" name) = false) as ->; [|done].
  destruct name as [|c name]; [done|]. cbn [endsWithSlash].
  clear -Hslash. revert c Hslash. induction name as [|c' name IH]; intros c Hslash.
  - cbn in *. by destruct (Ascii.eqb c "/").
  - cbn [endsWithSlash]. apply IH. cbn in *. by destruct (Ascii.eqb c "/").
Qed.

Lemma marker_in_dirlike segs tail :
  Forall plain segs → tail = "" ∨ tail = "/" →
  marker_in (absolute segs ++ tail) = absolute (segs ++ ["package.json"]).
Proof. intros. by apply path_join_dirlike. Qed.

(** One step up from a directory of the ascent is a directory of the
    ascent. *)
Lemma path_join_parent_dirlike dir : dirlike dir → dirlike (path_join [dir; "../"]).
Proof.
  intros (segs & tail & Hsegs & Htail & ->). unfold path_join.
  assert (filter (λ arg : string, arg ≠ "") [absolute segs ++ tail; "../"]
          = [absolute segs ++ tail; "../"]) as ->.
  { cbn [filter list_filter]. rewrite decide_True by (by unfold absolute). done. }
  change (String.concat "/" [absolute segs ++ tail; "../"])
    with ((absolute segs ++ tail) ++ "/../").
  unfold path_normalize.
  change (String.eqb ((absolute segs ++ tail) ++ "/../") "") with false.
  cbv beta iota zeta.
  change (startsWithSlash ((absolute segs ++ tail) ++ "/../")) with true.
  cbn [negb]. unfold normalizeString.
  set (kept := normalize_segments ((absolute segs ++ tail) ++ "/../") false).
  assert (Forall plain (rev kept)) as Hkept
    by apply Forall_rev, normalize_segments_plain.
  destruct (String.eqb_spec (String.concat "/" (rev kept)) "") as [Hroot|_].
  - exists [], "". split; [done|]. split; [by left|done].
  - change "/../" with (String "/" "../") at 1. rewrite endsWithSlash_append.
    cbn [endsWithSlash Ascii.eqb Bool.eqb]. cbv iota.
    exists (rev kept), "/". split; [done|]. split; [by right|].
    unfold absolute. by rewrite append_assoc_string.
Qed.

Lemma ascent_dirlike n dir : dirlike dir → dirlike (ascent n dir).
Proof.
  revert dir. induction n as [|n IH]; intros dir Hdir; [done|].
  apply IH. by apply path_join_parent_dirlike.
Qed.

Lemma normal_absolute_dirlike path : normal_absolute path → dirlike path.
Proof.
  intros (segs & Hsegs & ->). exists segs, "". split; [done|].
  split; [by left|]. by rewrite append_empty_r.
Qed.

Lemma start_dir_dirlike p :
  startsWithSlash (cwd p) = true → dirlike (start_dir p None).
Proof.
  intros Hcwd. unfold start_dir, or_else. cbn [nonempty default].
  by apply normal_absolute_dirlike, path_resolve_normal.
Qed.

Lemma string_concat_snoc sep (segs : list string) seg :
  segs ≠ [] → String.concat sep (segs ++ [seg]) = String.concat sep segs ++ sep ++ seg.
Proof.
  induction segs as [|x [|y l] IH]; intros Hne; [done|done|].
  change (String.concat sep ((x :: y :: l) ++ [seg]))
    with (x ++ sep ++ String.concat sep ((y :: l) ++ [seg])).
  rewrite IH by done. rewrite string_concat_cons. by rewrite !append_assoc_string.
Qed.

Lemma list_ascii_of_string_append s t :
  list_ascii_of_string (s ++ t) = (list_ascii_of_string s ++ list_ascii_of_string t)%list.
Proof.
  induction s as [|c s IH]; [done|]. rewrite append_cons. cbn. by rewrite IH.
Qed.

Lemma dropwhile_all {A} (test : A → bool) l rest :
  Forall (λ x, test x = true) l → dropwhile test (l ++ rest) = dropwhile test rest.
Proof. induction 1 as [|x l Hx _ IH]; [done|]. cbn. by rewrite Hx. Qed.

Lemma dropwhile_stop {A} (test : A → bool) x l :
  test x = false → dropwhile test (x :: l) = x :: l.
Proof. intros Hx. cbn. by rewrite Hx. Qed.

Lemma dropwhile_stop_app {A} (test : A → bool) l x l' rest :
  l = x :: l' → test x = false → dropwhile test (l ++ rest) = (l ++ rest)%list.
Proof. intros -> Hx. cbn. by rewrite Hx. Qed.

Lemma no_slash_chars s :
  contains "/" s = false →
  Forall (λ c, negb (Ascii.eqb c "/") = true) (list_ascii_of_string s).
Proof.
  induction s as [|c s IH]; cbn; [by constructor|].
  destruct (Ascii.eqb c "/") eqn:Hc; [done|]. intros Hs.
  constructor; [by rewrite Hc|by apply IH].
Qed.

(** [path.dirname] of a file in a directory is the directory. *)
Lemma path_dirname_child segs name :
  Forall plain segs → plain name →
  path_dirname (absolute (segs ++ [name])) = absolute segs.
Proof.
  intros Hsegs (Hne & _ & _ & Hslash). unfold absolute at 1.
  change ("/" ++ String.concat "/" (segs ++ [name]))
    with (String "/" (String.concat "/" (segs ++ [name]))).
  cbn [path_dirname]. change (Ascii.eqb "/" "/") with true. cbv zeta.
  pose proof (no_slash_chars name Hslash) as Hchars.
  assert (∃ c cs, rev (list_ascii_of_string name) = c :: cs ∧ Ascii.eqb c "/" = false)
    as (c & cs & Hrev & Hc).
  { destruct (rev (list_ascii_of_string name)) as [|c cs] eqn:Hrev.
    - apply (f_equal (@rev _)) in Hrev. rewrite rev_involutive in Hrev.
      destruct name; [done|discriminate].
    - exists c, cs. split; [done|].
      apply Forall_rev in Hchars. rewrite Hrev in Hchars.
      inversion Hchars as [|? ? Hhead _]; subst. by apply negb_true_iff in Hhead. }
  destruct (decide (segs = [])) as [->|Hsome].
  - cbn [app String.concat]. rewrite Hrev, dropwhile_stop by done. rewrite <-Hrev.
    rewrite <-(app_nil_r (rev (list_ascii_of_string name))).
    rewrite dropwhile_all by (by apply Forall_rev). done.
  - rewrite string_concat_snoc by done.
    rewrite !list_ascii_of_string_append, !rev_app_distr.
    change (rev (list_ascii_of_string "/")) with ["/"%char].
    rewrite <-app_assoc.
    rewrite (dropwhile_stop_app _ _ c cs) by done.
    rewrite dropwhile_all by (by apply Forall_rev). cbn [app].
    rewrite dropwhile_stop by done.
    assert (String.concat "/" segs ≠ "") as Hdir.
    { destruct segs as [|seg segs' _] using rev_ind; [done|].
      apply Forall_app in Hsegs as [_ Hseg]. inversion Hseg as [|? ? Hplain _]; subst.
      apply string_concat_nonempty, Hplain. }
    cbn [length]. rewrite length_rev.
    destruct (list_ascii_of_string (String.concat "/" segs)) as [|d ds] eqn:Hds.
    { destruct (String.concat "/" segs); [done|discriminate]. }
    cbn [length Nat.eqb andb]. rewrite rev_involutive, <-Hds.
    by rewrite string_of_list_ascii_of_string.
Qed.

(** [path.resolve] of a directory in normal form and a file name, with or
    without [./] in front. *)
Lemma path_resolve_child cwd segs name dot :
  Forall plain segs → plain name → dot = "" ∨ dot = "./" →
  path_resolve cwd [absolute segs; dot ++ name] = absolute (segs ++ [name]).
Proof.
  intros Hsegs Hname Hdot. unfold path_resolve.
  assert (resolve_loop cwd (rev [absolute segs; dot ++ name]) ""
          = (absolute segs ++ String "/" (dot ++ name ++ "/"), true)) as ->.
  { cbn [rev app resolve_loop].
    assert (String.eqb (dot ++ name) "" = false) as ->.
    { apply String.eqb_neq. destruct Hname as (Hne & _).
      destruct Hdot as [-> | ->]; [exact Hne|]. by rewrite !append_cons. }
    assert (startsWithSlash (dot ++ name) = false) as ->.
    { destruct Hname as (Hne & _ & _ & Hslash), Hdot as [-> | ->];
        [|by rewrite !append_cons].
      change ("" ++ name) with name.
      destruct name; [done|]. cbn in *. by destruct (Ascii.eqb _ "/"). }
    change (String.eqb (absolute segs) "") with false. cbv iota.
    change (startsWithSlash (absolute segs)) with true. cbv iota.
    by rewrite append_assoc_string. }
  cbn [negb]. unfold normalizeString.
  rewrite normalize_segments_snoc.
  rewrite <-(append_empty_r (absolute segs)) at 1.
  rewrite normalize_segments_absolute by auto.
  assert (split_at "/" (dot ++ name ++ "/") = match dot with "" => [name; ""] | _ => ["."; name; ""] end)
    as ->.
  { assert (split_at "/" (name ++ "/") = [name; ""]) as Hname'.
    { change (name ++ "/") with (name ++ String "/" "").
      rewrite split_at_append, split_at_whole by apply Hname. done. }
    destruct Hdot as [-> | ->]; [done|].
    change ("./" ++ name ++ "/") with ("." ++ String "/" (name ++ "/")).
    by rewrite split_at_append, Hname'. }
  assert (fold_left (normalize_step false)
            (match dot with "" => [name; ""] | _ => ["."; name; ""] end) (rev segs)
          = name :: rev segs) as ->.
  { destruct Hdot as [-> | ->]; cbn [fold_left].
    - by rewrite (normalize_step_plain false (rev segs) name).
    - change (normalize_step false (rev segs) ".") with (rev segs).
      by rewrite (normalize_step_plain false (rev segs) name). }
  cbn [rev]. by rewrite rev_involutive.
Qed.

(** * The root, the marker and the configuration file *)

Lemma existsSync_normal p path :
  normal_absolute path → existsSync p path = bool_decide (is_Some (files p !! path)).
Proof. intros Hpath. unfold existsSync. by rewrite path_resolve_fixed. Qed.

Lemma plain_snoc segs name : Forall plain segs → plain name → Forall plain (segs ++ [name]).
Proof. intros Hsegs Hname. apply Forall_app. split; [done|by constructor]. Qed.

(** What the ascent returns in a process whose working directory is
    absolute. *)
Lemma findPackageJson_normal depth p local :
  startsWithSlash (cwd p) = true →
  findPackageJson depth p None = Return (Some local) →
  ∃ segs : list string, Forall plain segs ∧ local = absolute (segs ++ ["package.json"]) ∧
          is_Some (files p !! local).
Proof.
  intros Hcwd (Hexists & n & Hlocal)%findPackageJson_ascent.
  destruct (ascent_dirlike n (start_dir p None) (start_dir_dirlike p Hcwd))
    as (segs & tail & Hsegs & Htail & Hdir).
  rewrite Hdir, marker_in_dirlike in Hlocal by done.
  exists segs. split; [done|]. split; [done|].
  rewrite existsSync_normal in Hexists.
  - by apply bool_decide_eq_true_1 in Hexists.
  - exists (segs ++ ["package.json"])%list. split; [|done]. by apply plain_snoc.
Qed.

(** X13: the example of the documentation of [findRoot].  In a process
    whose working directory is absolute and whose [PLEASURE_ROOT] is unset,
    when the ascent finds a marker, [findRoot()] is the directory of that
    marker, [findRoot('package.json')] is the marker itself, which exists,
    and [findConfig()] is the file [pleasure.config.js] next to it. *)
Theorem findRoot_of_marker p local :
  startsWithSlash (cwd p) = true →
  nonempty (PLEASURE_ROOT p) = None →
  findPackageJson (stack_limit p) p None = Return (Some local) →
  fst (findRoot ["package.json"] p) = Return local ∧
  is_Some (files p !! local) ∧
  ∃ segs : list string, Forall plain segs ∧
          fst (findRoot [] p) = Return (absolute segs) ∧
          local = absolute (segs ++ ["package.json"]) ∧
          fst (findConfig p) = Return (absolute (segs ++ ["pleasure.config.js"])).
Proof.
  intros Hcwd Henv Hfind.
  destruct (findPackageJson_normal _ _ _ Hcwd Hfind) as (segs & Hsegs & -> & Hfile).
  unfold findConfig, findRoot, reads. cbn [fst]. rewrite Henv, Hfind. cbn [rbind].
  rewrite path_dirname_child by done.
  split; [|split; [done|exists segs; split; [done|]; split; [|split; [done|]]]].
  - f_equal. by apply (path_resolve_child (cwd p) segs "package.json" "");
      [| |left].
  - f_equal. apply path_resolve_fixed. by exists segs.
  - f_equal. by apply (path_resolve_child (cwd p) segs "pleasure.config.js" "");
      [| |left].
Qed.

Lemma findRoot_of_marker_witness :
  fst (findRoot ["package.json"] (project api_config))
  = Return "/home/dev/app/package.json" ∧
  is_Some (files (project api_config) !! "/home/dev/app/package.json") ∧
  ∃ segs : list string, Forall plain segs ∧
          fst (findRoot [] (project api_config)) = Return (absolute segs) ∧
          "/home/dev/app/package.json" = absolute (segs ++ ["package.json"]) ∧
          fst (findConfig (project api_config))
          = Return (absolute (segs ++ ["pleasure.config.js"])).
Proof.
  refine (findRoot_of_marker (project api_config) "/home/dev/app/package.json" _ _ _).
  - reflexivity.
  - reflexivity.
  - vm_compute. reflexivity.
Defined.

(** * [packageJson] *)

Lemma packageJson_unfold p :
  packageJson p =
  match fst (findRoot ["./package.json"] p) with
  | Return file => if existsSync p file then require file p else (Return (VObj ∅), p)
  | Throw e => (Throw e, p)
  end.
Proof.
  unfold packageJson, bind. rewrite (findRoot_eq ["./package.json"] p).
  destruct (fst (findRoot ["./package.json"] p)) as [file|e]; [|done].
  unfold reads. cbn. by destruct (existsSync p file).
Qed.

(** X14: without [PLEASURE_ROOT], [packageJson] loads the marker file the
    ascent found; its branch for a missing file is never taken then. *)
Theorem packageJson_loads_marker p local :
  startsWithSlash (cwd p) = true →
  nonempty (PLEASURE_ROOT p) = None →
  findPackageJson (stack_limit p) p None = Return (Some local) →
  packageJson p = require local p.
Proof.
  intros Hcwd Henv Hfind. rewrite packageJson_unfold.
  destruct (findPackageJson_normal _ _ _ Hcwd Hfind) as (segs & Hsegs & -> & Hfile).
  unfold findRoot, reads. cbn [fst]. rewrite Henv, Hfind. cbn [rbind].
  rewrite path_dirname_child by done.
  pose proof (path_resolve_child (cwd p) segs "package.json" "./" Hsegs
                plain_package_json (or_intror eq_refl)) as Hresolve.
  change ("./" ++ "package.json") with "./package.json" in Hresolve. rewrite Hresolve.
  rewrite existsSync_normal.
  - by rewrite bool_decide_eq_true_2.
  - exists (segs ++ ["package.json"])%list. split; [|done]. by apply plain_snoc.
Qed.

Lemma packageJson_loads_marker_witness :
  packageJson (project api_config)
  = require "/home/dev/app/package.json" (project api_config).
Proof.
  refine (packageJson_loads_marker (project api_config) "/home/dev/app/package.json"
            _ _ _).
  - reflexivity.
  - reflexivity.
  - vm_compute. reflexivity.
Defined.

(** X15: with [PLEASURE_ROOT] set, in a process whose working directory is
    absolute, [packageJson] returns an empty object when the root has no
    [package.json], without an error and without a change of the process,
    also when the loader still has that file in its cache. *)
Theorem packageJson_missing p root :
  startsWithSlash (cwd p) = true →
  nonempty (PLEASURE_ROOT p) = Some root →
  files p !! path_resolve (cwd p) [root; "./package.json"] = None →
  packageJson p = (Return (VObj ∅), p).
Proof.
  intros Hcwd Henv Hfile. rewrite packageJson_unfold.
  unfold findRoot, reads. cbn [fst]. rewrite Henv.
  rewrite existsSync_normal by (by apply path_resolve_normal).
  rewrite bool_decide_eq_false_2; [done|]. rewrite Hfile. apply is_Some_None.
Qed.

(** X16: [packageJson] has no way to force a load: once it returned, it
    returns the same in every later state in which only the contents of
    files were rewritten. *)
Theorem packageJson_cached p v p1 q :
  packageJson p = (Return v, p1) →
  contents_changed p1 q →
  fst (packageJson q) = Return v.
Proof.
  rewrite !packageJson_unfold.
  intros Hfirst (Hcwd & Henv & Hlimit & Hdom & Hpc & Hrc & Hms).
  destruct (fst (findRoot ["./package.json"] p)) as [file|e] eqn:Hroot; [|done].
  assert (same_world p p1 ∧
          (existsSync p file = true →
           file ∈ pathCache p1 ∧ require_cache p1 !! file = Some v) ∧
          (existsSync p file = false → v = VObj ∅)) as (Hsame & Hhit & Hmiss).
  { destruct (existsSync p file).
    - apply require_inv in Hfirst as (Hin & Hcache & Hsame & _).
      split; [done|]. split; [by intros _|by intros [=]].
    - injection Hfirst as <- <-.
      split; [apply same_world_refl|]. split; [by intros [=]|done]. }
  destruct Hsame as (Hcwd1 & Henv1 & Hlimit1 & Hfs1 & _).
  rewrite (findRoot_ext _ p q), Hroot by congruence.
  rewrite (existsSync_ext p q) by congruence.
  destruct (existsSync p file).
  - destruct (Hhit eq_refl) as [Hin Hcache].
    rewrite (require_cached file v q); [done| |]; congruence.
  - by rewrite Hmiss.
Qed.

Lemma packageJson_missing_witness :
  packageJson rooted_project = (Return (VObj ∅), rooted_project).
Proof.
  refine (packageJson_missing rooted_project "/srv/app" _ _ _).
  - reflexivity.
  - reflexivity.
  - vm_compute. reflexivity.
Defined.

Lemma packageJson_cached_witness :
  fst (packageJson
         (set_files (files (manifest_project "renamed"))
            (loaded "/home/dev/app/package.json" (manifest "app") (manifest_project "app"))))
  = Return (manifest "app").
Proof.
  refine (packageJson_cached (manifest_project "app") (manifest "app")
            (loaded "/home/dev/app/package.json" (manifest "app") (manifest_project "app"))
            _ _ _).
  - vm_compute. reflexivity.
  - repeat split; vm_compute; reflexivity.
Defined.

(** * The table of contributions *)

Lemma extendConfig_cases scope replacement p :
  (scope = "" ∨ truthy replacement = false) ∧
    middlewares (snd (extendConfig scope replacement p)) = middlewares p
  ∨ (scope ≠ "" ∧ truthy replacement = true) ∧
    middlewares (snd (extendConfig scope replacement p))
    = <[scope := (default [] (middlewares p !! scope) ++ [replacement])%list]>
        (middlewares p).
Proof.
  destruct (String.eqb_spec scope "") as [->|Hscope].
  { left. split; [by left|done]. }
  destruct (truthy replacement) eqn:Htruthy.
  - right. split; [done|]. by rewrite extendConfig_accepts.
  - left. split; [by right|]. unfold extendConfig.
    by rewrite Htruthy, orb_true_r.
Qed.


Lemma extendConfig_keeps_ok scope replacement p :
  registry_ok (middlewares p) →
  registry_ok (middlewares (snd (extendConfig scope replacement p))).
Proof.
  intros Hok.
  destruct (extendConfig_cases scope replacement p) as [[_ ->]|[[Hscope Htruthy] ->]];
    [done|].
  intros scope' mutations. destruct (decide (scope = scope')) as [<-|Hne].
  - rewrite lookup_insert_eq. intros [= <-]. split; [done|]. split.
    + by destruct (default [] (middlewares p !! scope)).
    + apply Forall_app. split; [|by constructor].
      destruct (middlewares p !! scope) as [registered|] eqn:Hreg; [|by constructor].
      by apply (Hok scope registered).
  - rewrite lookup_insert_ne by done. apply Hok.
Qed.

(** X18: an invariant of the table of contributions.  Starting from a table
    without an entry under the empty scope, without an empty entry and
    without a falsy contribution (the empty table is one), every sequence of
    calls of [extendConfig] leaves such a table. *)
Theorem extendConfig_invariant calls p :
  registry_ok (middlewares p) →
  registry_ok (middlewares (extendConfig_all calls p)).
Proof.
  revert p. induction calls as [|[scope replacement] rest IH]; intros p Hok; [done|].
  cbn [extendConfig_all]. by apply IH, extendConfig_keeps_ok.
Qed.

Lemma extendConfig_invariant_witness :
  registry_ok
    (middlewares
       (extendConfig_all
          [("api", VObj {[ "port" := VNum 4000 ]}); ("", VObj ∅); ("ui", VUndefined);
           ("api", VFun None)]
          (project api_config))).
Proof.
  refine (extendConfig_invariant _ (project api_config) _).
  intros scope mutations Hnone.
  change (middlewares (project api_config)) with (∅ : gmap string (list Value)) in Hnone.
  by rewrite lookup_empty in Hnone.
Defined.

(** * [randomUniqueId] *)

(** X19: two ids are equal exactly when they were made in the same
    millisecond with the same letter: ids made at different times differ, and
    ids made in one millisecond are told apart by the letter alone.  The
    first character of an id is a capital letter. *)
Theorem randomUniqueId_collision letter now letter' now' :
  letter < 26 → letter' < 26 →
  (randomUniqueId letter now = randomUniqueId letter' now' ↔
   letter = letter' ∧ now = now') ∧
  ∃ rest, randomUniqueId letter now = String (ascii_of_nat (65 + letter)) rest ∧
          (65 ≤ nat_of_ascii (ascii_of_nat (65 + letter)) ≤ 90)%nat.
Proof.
  intros Hletter Hletter'. split.
  - split; [|by intros [-> ->]].
    unfold randomUniqueId. intros [= Hchar Hnow].
    apply (f_equal nat_of_ascii) in Hchar.
    rewrite !nat_ascii_embedding in Hchar by lia.
    split; [lia|]. by apply (inj pretty).
  - exists (pretty now). split; [done|]. rewrite nat_ascii_embedding by lia. lia.
Qed.

Lemma randomUniqueId_collision_witness :
  (randomUniqueId 0 1546300800000 = randomUniqueId 25 1546300800001 ↔
   0 = 25 ∧ 1546300800000%N = 1546300800001%N) ∧
  ∃ rest, randomUniqueId 0 1546300800000 = String (ascii_of_nat (65 + 0)) rest ∧
          (65 ≤ nat_of_ascii (ascii_of_nat (65 + 0)) ≤ 90)%nat.
Proof.
  refine (randomUniqueId_collision 0 1546300800000 25 1546300800001 _ _); lia.
Defined.

Example randomUniqueId_sample : randomUniqueId 19 1546300800000 = "T1546300800000".
Proof. vm_compute. reflexivity. Qed.

(** * [deepScanDir] *)

Lemma Entry_nested_ind (P : Entry → Prop) :
  P File → P Broken →
  (∀ files, Forall (λ named, P named.2) files → P (Dir files)) →
  ∀ entry, P entry.
Proof.
  intros Hfile Hbroken Hdir. fix IH 1. intros [|files|]; [done| |done].
  apply Hdir. induction files as [|[name child] rest IHrest]; constructor.
  - apply IH.
  - exact IHrest.
Qed.


Lemma isDirectory_false entry : isDirectory entry = false → entry = File.
Proof. by destruct entry. Qed.

(** The listing of one directory, given what the scan does below it. *)
Lemma scan_listing_kept scan directory exclude filter files :
  Forall (λ named : string * Entry,
            ∀ below found, scan below named.2 = Fulfilled found →
              ∀ file, file ∈ found ↔ kept exclude filter below named.2 file) files →
  ∀ found0 found,
    scan_listing true true scan directory exclude filter files found0 = Fulfilled found →
    ∀ file, file ∈ found ↔
            file ∈ found0 ∨
            ∃ name child, (name, child) ∈ files ∧
              (child = File ∧ file = path_join [directory; name] ∧
               accepted filter file ∧ excluded exclude file = false
               ∨ isDirectory child = true ∧
                 excluded exclude (path_join [directory; name]) = false ∧
                 kept exclude filter (path_join [directory; name]) child file).
Proof.
  induction 1 as [|[name child] rest Hchild _ IH]; intros found0 found.
  { intros [= <-] file. split; [by left|]. intros [?|(? & ? & Hin & _)]; [done|].
    by apply elem_of_nil in Hin. }
  cbn [scan_listing negb]. cbn [snd] in Hchild.
  set (here := path_join [directory; name]).
  assert (∀ found1,
    (∀ file, file ∈ found1 ↔
             file ∈ found0 ∨
             (child = File ∧ file = here ∧ accepted filter file ∧
              excluded exclude file = false
              ∨ isDirectory child = true ∧ excluded exclude here = false ∧
                kept exclude filter here child file)) →
    scan_listing true true scan directory exclude filter rest found1 = Fulfilled found →
    ∀ file, file ∈ found ↔
            file ∈ found0 ∨
            ∃ name' child', (name', child') ∈ (name, child) :: rest ∧
              (child' = File ∧ file = path_join [directory; name'] ∧
               accepted filter file ∧ excluded exclude file = false
               ∨ isDirectory child' = true ∧
                 excluded exclude (path_join [directory; name']) = false ∧
                 kept exclude filter (path_join [directory; name']) child' file))
    as Hrest.
  { intros found1 Hfound1 Hscan file. rewrite (IH _ _ Hscan file), Hfound1.
    split.
    - intros [[?|Hhere]|(name' & child' & Hin & Hkept)]; [by left| |].
      + right. exists name, child. split; [by left|done].
      + right. exists name', child'. split; [by right|done].
    - intros [?|(name' & child' & Hin & Hkept)]; [by left; left|].
      apply elem_of_cons in Hin as [[= -> ->]|Hin].
      + left. by right.
      + right. by exists name', child'. }
  destruct (isDirectory child) eqn:Hdir.
  - destruct (excluded exclude here) eqn:Hex.
    + apply Hrest. intros file. split; [by left|].
      intros [?|[(-> & _)|(_ & ? & _)]]; done.
    + destruct (scan here child) as [below|e] eqn:Hscan; [|done].
      apply Hrest. intros file. rewrite elem_of_app, (Hchild _ _ Hscan file).
      split.
      * intros [?|?]; [by left|right; right; done].
      * intros [?|[(-> & _)|(_ & _ & ?)]]; [by left|done|by right].
  - apply isDirectory_false in Hdir as ->.
    destruct filter as [accepts|]; cbn [accepted] in *.
    + destruct (accepts here) as [[|]|e] eqn:Haccepts; [| |done].
      * destruct (excluded exclude here) eqn:Hex.
        -- apply Hrest. intros file. split; [by left|].
           intros [?|[(_ & -> & _ & ?)|(? & _)]]; [done|congruence|done].
        -- apply Hrest. intros file. rewrite elem_of_app, list_elem_of_singleton.
           split.
           ++ intros [? | ->]; [by left|]. right. left. done.
           ++ intros [?|[(_ & -> & _)|(? & _)]]; [by left|by right|done].
      * apply Hrest. intros file. split; [by left|].
        intros [?|[(_ & -> & ? & _)|(? & _)]]; [done|congruence|done].
    + destruct (excluded exclude here) eqn:Hex.
      * apply Hrest. intros file. split; [by left|].
        intros [?|[(_ & -> & _ & ?)|(? & _)]]; [done|congruence|done].
      * apply Hrest. intros file. rewrite elem_of_app, list_elem_of_singleton.
        split.
        -- intros [? | ->]; [by left|]. right. left. done.
        -- intros [?|[(_ & -> & _)|(? & _)]]; [by left|by right|done].
Qed.

(** X21: with [path] and [lstat] bound, the files a fulfilled scan returns
    are exactly the files below the directory that are not excluded, that the
    filter lets through, and that no excluded directory lies above. *)
Theorem deepScanDir_kept directory entry exclude filter found :
  deepScanDir true true directory entry exclude filter = Fulfilled found →
  ∀ file, file ∈ found ↔
          kept (default (Many [node_modules]) exclude) filter directory entry file.
Proof.
  revert directory exclude found.
  induction entry as [| |files IH] using Entry_nested_ind;
    intros directory exclude found; [done|done|].
  cbn [deepScanDir]. set (patterns := default (Many [node_modules]) exclude).
  intros Hscan file.
  rewrite (scan_listing_kept _ directory patterns filter files) by
    (exact Hscan ||
     (eapply Forall_impl; [exact IH|]; intros [name child] Hchild below found' Hbelow;
      apply (Hchild below (Some patterns) found' Hbelow))).
  split.
  - intros [Hnil|(name & child & Hin & [(-> & -> & Hacc & Hex)|(Hdir & Hex & Hkept)])].
    + by apply elem_of_nil in Hnil.
    + by apply kept_here.
    + by eapply kept_below.
  - intros Hkept. right. inversion Hkept as [? ? name Hin Hacc Hex|? ? name child ? Hin Hdir Hex Hbelow];
      subst.
    + exists name, File. split; [done|]. by left.
    + exists name, child. split; [done|]. by right.
Qed.

Lemma deepScanDir_kept_witness :
  "/src/lib/a.js" ∈ ["/src/index.js"; "/src/lib/a.js"] ↔
  kept (default (Many [node_modules]) None) (Some only_js) "/src" sample_tree
    "/src/lib/a.js".
Proof.
  refine (deepScanDir_kept "/src" sample_tree None (Some only_js)
            ["/src/index.js"; "/src/lib/a.js"] _ "/src/lib/a.js").
  vm_compute. reflexivity.
Defined.

Lemma scan_listing_skips scan directory exclude filter before name child after found :
  isDirectory child = true →
  excluded exclude (path_join [directory; name]) = true →
  scan_listing true true scan directory exclude filter
    (before ++ (name, child) :: after) found
  = scan_listing true true scan directory exclude filter (before ++ after) found.
Proof.
  intros Hdir Hex. revert found.
  induction before as [|[name' child'] before IH]; intros found.
  - cbn [app scan_listing negb]. by rewrite Hdir, Hex.
  - cbn [app scan_listing negb].
    destruct (if isDirectory child' then _ else _) as [[|]|e]; [|apply IH|done].
    destruct (excluded exclude (path_join [directory; name'])); [apply IH|].
    destruct (isDirectory child'); [|apply IH].
    destruct (scan (path_join [directory; name']) child'); [apply IH|done].
Qed.

(** X22: with [path] and [lstat] bound, a directory that is excluded is not
    read: the scan settles as if the directory were not listed, whatever is
    in it, a directory that cannot be read included. *)
Theorem deepScanDir_prunes directory before name child after exclude filter :
  isDirectory child = true →
  excluded (default (Many [node_modules]) exclude) (path_join [directory; name]) = true →
  deepScanDir true true directory (Dir (before ++ (name, child) :: after)) exclude filter
  = deepScanDir true true directory (Dir (before ++ after)) exclude filter.
Proof. intros Hdir Hex. cbn [deepScanDir]. by apply scan_listing_skips. Qed.

Lemma deepScanDir_prunes_witness :
  deepScanDir true true "/src" sample_tree None None
  = deepScanDir true true "/src"
      (Dir [ ("index.js", File); ("lib", Dir [("a.js", File); ("a.md", File)]) ])
      None None.
Proof.
  refine (deepScanDir_prunes "/src" [("index.js", File)] "node_modules"
            (Dir [("dep", Broken)])
            [("lib", Dir [("a.js", File); ("a.md", File)])] None None _ _).
  - reflexivity.
  - vm_compute. reflexivity.
Defined.

Example deepScanDir_sample :
  deepScanDir true true "/src" sample_tree None None
  = Fulfilled ["/src/index.js"; "/src/lib/a.js"; "/src/lib/a.md"].
Proof. vm_compute. reflexivity. Qed.

Example deepScanDir_unreadable :
  deepScanDir true true "/src" sample_tree (Some (Many [])) None
  = Rejected (ReaddirFailed "/src/node_modules/dep").
Proof. vm_compute. reflexivity. Qed.

(** * [EventBus] *)

(** X23: the bus is built once.  The first call constructs one emitter and
    returns an object with the four methods [on], [removeListener], [once] and
    [emit], all bound to it; every call after a call returns the same object
    and constructs nothing. *)
Theorem eventsBus_singleton b n :
  eventsBus (snd (eventsBus b)) = (fst (eventsBus b), snd (eventsBus b)) ∧
  (emitters (snd (eventsBus b)) ≤ S (emitters b))%nat ∧
  eventsBus (mkBus None n)
  = ({[ "on" := n; "removeListener" := n; "once" := n; "emit" := n ]},
     mkBus (Some {[ "on" := n; "removeListener" := n; "once" := n; "emit" := n ]}) (S n)).
Proof.
  split; [|split].
  - unfold eventsBus. by destruct (singleton_api b) eqn:Hsingle; cbn; [rewrite Hsingle|].
  - unfold eventsBus. destruct (singleton_api b); cbn; lia.
  - unfold eventsBus. cbn [singleton_api emitters foldl].
    rewrite !bool_decide_eq_true_2 by (unfold EventEmitter_members; set_solver).
    assert (<["emit":=n]> (<["once":=n]> (<["removeListener":=n]> (<["on":=n]> ∅)))
            = ({[ "on" := n; "removeListener" := n; "once" := n; "emit" := n ]}
               : gmap string nat)) as ->; [|done].
    apply map_eq. intros ev.
    destruct (decide (ev = "emit")) as [-> | ?]; [by simplify_map_eq|].
    destruct (decide (ev = "once")) as [-> | ?]; [by simplify_map_eq|].
    destruct (decide (ev = "removeListener")) as [-> | ?]; [by simplify_map_eq|].
    destruct (decide (ev = "on")) as [-> | ?]; by simplify_map_eq.
Qed.
